(** * PodcastHub backend: authentication, ownership-scoped content API,
      search and upload

    A shallow embedding of [backend/server.py] (the FastAPI application) and
    [backend/views.py] (the Django registration view), with the properties
    of the specification stated and proved over it.

    Conventions.
    - A request handler is a function from the state of the world (the
      MongoDB collections and the upload directory) to an outcome and a new
      state; [raise HTTPException(...)] is an outcome of its own.
    - Instants ([datetime.utcnow()]) and durations ([timedelta]) are whole
      seconds, the resolution at which a token's expiry claim is encoded.
    - Text is ASCII: a string is a sequence of 8-bit characters and letter
      case is that of the ASCII letters.
    - Values the code draws at random ([uuid.uuid4()], the salt of a
      password hash) and the clock are explicit arguments of the handler
      that uses them.
    - The libraries the code calls (PyJWT, passlib, the regular expressions
      of MongoDB) are interfaces with the laws the proofs rely on; each has
      an executable instance further down. *)

From Stdlib Require Import ZArith List Ascii String Bool Lia.
From stdpp Require Import base option list strings gmap.

Local Open Scope Z_scope.

(** ** Python values and dictionaries *)

(** The JSON-like values found in token payloads, query filters and
    request bodies. *)
Inductive value : Type :=
  | VNone
  | VStr (s : string)
  | VInt (z : Z).

#[global] Instance value_eq_dec : EqDecision value.
Proof. solve_decision. Defined.

Abbreviation dict := (gmap string value).

(** [d.get(k)]: the value under [k], [None] when the key is absent. *)
Definition dict_get (d : dict) (k : string) : value :=
  default VNone (d !! k).

(** Truth value of an object, as tested by [if x:] and [not x]. *)
Definition truthy (v : value) : bool :=
  match v with
  | VNone => false
  | VStr s => negb (String.eqb s "")
  | VInt z => negb (z =? 0)
  end.

Abbreviation bytes := (list Byte.byte).

(** ** String methods *)

Module Str.

(** [c.lower()] on one character (ASCII letters). *)
Definition lower_ascii (c : ascii) : ascii :=
  let n := N_of_ascii c in
  if ((65 <=? n) && (n <=? 90))%N then ascii_of_N (n + 32) else c.

(** [s.lower()] *)
Fixpoint lower (s : string) : string :=
  match s with
  | EmptyString => EmptyString
  | String c s' => String (lower_ascii c) (lower s')
  end.

(** [s.split(sep)] for a one-character separator: never the empty list. *)
Fixpoint split (sep : ascii) (s : string) : list string :=
  match s with
  | EmptyString => [EmptyString]
  | String c s' =>
      if Ascii.eqb c sep then EmptyString :: split sep s'
      else match split sep s' with
           | w :: ws => String c w :: ws
           | [] => [String c EmptyString]
           end
  end.

(** [sep.join(l)] for a one-character separator. *)
Fixpoint join (sep : ascii) (l : list string) : string :=
  match l with
  | [] => EmptyString
  | w :: l' =>
      match l' with
      | [] => w
      | _ :: _ => w +:+ String sep (join sep l')
      end
  end.

(** [sep not in s] *)
Fixpoint lacks (sep : ascii) (s : string) : bool :=
  match s with
  | EmptyString => true
  | String c s' => negb (Ascii.eqb c sep) && lacks sep s'
  end.

(** [l[-1]] on the result of a split. *)
Definition last_item (l : list string) : string := List.last l EmptyString.

(** [x in l] on a list of strings. *)
Definition mem (x : string) (l : list string) : bool :=
  existsb (String.eqb x) l.

(** [s.startswith(p)] *)
Fixpoint startswith (p s : string) : bool :=
  match p, s with
  | EmptyString, _ => true
  | String a p', String b s' => Ascii.eqb a b && startswith p' s'
  | String _ _, EmptyString => false
  end.

(** Does [s] start with [p], letter case apart? *)
Fixpoint istartswith (p s : string) : bool :=
  match p, s with
  | EmptyString, _ => true
  | String a p', String b s' =>
      Ascii.eqb (lower_ascii a) (lower_ascii b) && istartswith p' s'
  | String _ _, EmptyString => false
  end.

(** Does [s] contain [q] at some position, letter case apart? The
    case-insensitive substring predicate of the specification. *)
Fixpoint icontains (q s : string) : bool :=
  istartswith q s ||
  match s with
  | EmptyString => false
  | String _ s' => icontains q s'
  end.

End Str.

(** ** Outcomes and handlers *)

(** What a call produces: a value, an [HTTPException] with its status code
    and detail, or an exception no handler catches (the framework answers
    500). *)
Inductive result (A : Type) : Type :=
  | Ok (a : A)
  | HTTPException (status_code : Z) (detail : string)
  | Raised (exn : string).

Arguments Ok {A} a.
Arguments HTTPException {A} status_code detail.
Arguments Raised {A} exn.

Section Handler.

Context {St : Type}.

(** A computation over the state [St] that may raise. *)
Definition handler (A : Type) : Type := St -> result A * St.

Definition ret {A} (a : A) : handler A := fun s => (Ok a, s).

Definition raise {A} (status_code : Z) (detail : string) : handler A :=
  fun s => (HTTPException status_code detail, s).

Definition throw {A} (exn : string) : handler A :=
  fun s => (Raised exn, s).

Definition bind {A B} (m : handler A) (k : A -> handler B) : handler B :=
  fun s =>
    match m s with
    | (Ok a, s') => k a s'
    | (HTTPException c d, s') => (HTTPException c d, s')
    | (Raised e, s') => (Raised e, s')
    end.

Definition modify (f : St -> St) : handler unit := fun s => (Ok tt, f s).

End Handler.

Arguments handler St A : clear implicits.

Declare Scope handler_scope.
Delimit Scope handler_scope with handler.
Notation "x <- m ;; k" := (bind m (fun x => k))
  (at level 100, m at next level, right associativity) : handler_scope.
Notation "m ;;; k" := (bind m (fun _ => k))
  (at level 100, right associativity) : handler_scope.

(** ** Models (the pydantic classes of server.py) *)

(** Documents are kept as typed records: every document the application
    inserts is the [.dict()] of a model and every document it reads goes
    through the model's constructor, so [items] below is that dictionary
    view and the only one a query filter sees. *)

Module User.
Record t : Type := mk {
  id : string;
  email : string;
  username : string;
  password_hash : string;
  role : string;          (* 'podcaster' or 'listener' *)
  created_at : Z
}.
Definition items (u : t) : list (string * value) :=
  [("id", VStr (id u)); ("email", VStr (email u));
   ("username", VStr (username u));
   ("password_hash", VStr (password_hash u));
   ("role", VStr (role u)); ("created_at", VInt (created_at u))]%string.
End User.
Abbreviation User := User.t.

Module UserCreate.
Record t : Type := mk {
  email : string;
  username : string;
  password : string;
  role : string
}.
End UserCreate.
Abbreviation UserCreate := UserCreate.t.

Module UserLogin.
Record t : Type := mk {
  email : string;
  password : string
}.
End UserLogin.
Abbreviation UserLogin := UserLogin.t.

Module UserResponse.
Record t : Type := mk {
  id : string;
  email : string;
  username : string;
  role : string;
  created_at : Z
}.
(** The response model built from a user's fields: the password hash is
    dropped. *)
Definition of_user (u : User) : t :=
  mk (User.id u) (User.email u) (User.username u) (User.role u)
     (User.created_at u).
End UserResponse.
Abbreviation UserResponse := UserResponse.t.

Module Podcast.
Record t : Type := mk {
  id : string;
  title : string;
  description : string;
  creator_id : string;
  cover_image : option string;
  category : string;
  created_at : Z
}.
Definition items (p : t) : list (string * value) :=
  [("id", VStr (id p)); ("title", VStr (title p));
   ("description", VStr (description p));
   ("creator_id", VStr (creator_id p));
   ("cover_image", from_option VStr VNone (cover_image p));
   ("category", VStr (category p));
   ("created_at", VInt (created_at p))]%string.
End Podcast.
Abbreviation Podcast := Podcast.t.

Module PodcastCreate.
Record t : Type := mk {
  title : string;
  description : string;
  category : string
}.
End PodcastCreate.
Abbreviation PodcastCreate := PodcastCreate.t.

Module Episode.
Record t : Type := mk {
  id : string;
  podcast_id : string;
  title : string;
  description : string;
  audio_file : string;
  duration : option Z;    (* in seconds *)
  created_at : Z
}.
Definition items (e : t) : list (string * value) :=
  [("id", VStr (id e)); ("podcast_id", VStr (podcast_id e));
   ("title", VStr (title e)); ("description", VStr (description e));
   ("audio_file", VStr (audio_file e));
   ("duration", from_option VInt VNone (duration e));
   ("created_at", VInt (created_at e))]%string.
End Episode.
Abbreviation Episode := Episode.t.

(** ** The document store *)

(** A document answers a field name with a value ([None] when absent). *)
Class Document (D : Type) : Type := field : D -> string -> value.

Fixpoint assoc (k : string) (l : list (string * value)) : value :=
  match l with
  | [] => VNone
  | (k', v) :: l' => if String.eqb k k' then v else assoc k l'
  end.

#[global] Instance user_document : Document User :=
  fun u k => assoc k (User.items u).
#[global] Instance podcast_document : Document Podcast :=
  fun p k => assoc k (Podcast.items p).
#[global] Instance episode_document : Document Episode :=
  fun e k => assoc k (Episode.items e).
#[global] Instance dict_document : Document dict := dict_get.

(** The characters with a meaning of their own in a regular expression. *)
Inductive char_class : Type :=
  | Ordinary | Backslash | Period | Asterisk | PlusSign | QuestionMark
  | Caret | Dollar | Bracket.

Definition classify (c : ascii) : char_class :=
  match c with
  | "\"%char => Backslash
  | "."%char => Period
  | "*"%char => Asterisk
  | "+"%char => PlusSign
  | "?"%char => QuestionMark
  | "^"%char => Caret
  | "$"%char => Dollar
  | "["%char | "]"%char | "("%char | ")"%char
  | "{"%char | "}"%char | "|"%char => Bracket
  | _ => Ordinary
  end.

(** A pattern made of ordinary characters only. *)
Fixpoint literal (q : string) : bool :=
  match q with
  | EmptyString => true
  | String c q' =>
      match classify c with Ordinary => literal q' | _ => false end
  end.

(** The regular expressions of the store ([$regex] with [$options]):
    compiling a pattern gives a search predicate on subjects, or fails on a
    pattern that is not a regular expression. *)
Class RegexEngine : Type := {
  regex_compile : string -> string -> option (string -> bool)
}.

(** The one fact about them the proofs use: under option [i], a pattern of
    ordinary characters is found where it occurs as a substring, letter
    case apart. *)
Class RegexLaws (E : RegexEngine) : Prop := {
  regex_literal : forall q, literal q = true ->
    exists m, regex_compile q "i" = Some m /\
              forall s, m s = Str.icontains q s
}.

(** Query filters, as the dictionaries the handlers pass to [find] and
    [find_one]. A dictionary with several keys is the conjunction of its
    entries; [{}] is [Q_and []]. *)
#[local] Unset Elimination Schemes.
Inductive query : Type :=
  | Q_eq (k : string) (v : value)                (* {k: v} *)
  | Q_regex (k : string) (pattern options : string)
                                   (* {k: {"$regex": p, "$options": o}} *)
  | Q_and (qs : list query)                      (* {k1: .., k2: ..} *)
  | Q_or (qs : list query).                      (* {"$or": [..]} *)
#[local] Set Elimination Schemes.

Section Store.

Context {RE : RegexEngine}.
Context {D : Type} `{Document D}.

(** The predicate a filter denotes; [None] when the filter is rejected
    (a pattern that does not compile). *)
Fixpoint compile (q : query) : option (D -> bool) :=
  match q with
  | Q_eq k v => Some (fun d => bool_decide (field d k = v))
  | Q_regex k pattern options =>
      match regex_compile pattern options with
      | Some m =>
          Some (fun d => match field d k with VStr s => m s | _ => false end)
      | None => None
      end
  | Q_and qs =>
      (fix all (qs : list query) : option (D -> bool) :=
         match qs with
         | [] => Some (fun _ => true)
         | q :: qs' =>
             match compile q, all qs' with
             | Some f, Some g => Some (fun d => f d && g d)
             | _, _ => None
             end
         end) qs
  | Q_or qs =>
      (fix any (qs : list query) : option (D -> bool) :=
         match qs with
         | [] => Some (fun _ => false)
         | q :: qs' =>
             match compile q, any qs' with
             | Some f, Some g => Some (fun d => f d || g d)
             | _, _ => None
             end
         end) qs
  end.

(** [coll.find_one(q)]: the first matching document in store order. *)
Definition find_one (coll : list D) (q : query) : result (option D) :=
  match compile q with
  | Some p => Ok (List.find p coll)
  | None => Raised "OperationFailure"
  end.

(** [coll.find(q).to_list(n)]: the first [n] matching documents. *)
Definition find_to_list (coll : list D) (q : query) (n : nat)
  : result (list D) :=
  match compile q with
  | Some p => Ok (take n (List.filter p coll))
  | None => Raised "OperationFailure"
  end.

(** [coll.insert_one(d)] *)
Definition insert_one (coll : list D) (d : D) : list D := coll ++ [d].

End Store.

(** ** The libraries behind the helpers *)

(** passlib's [CryptContext(schemes=["bcrypt"])]. Hashing draws a salt;
    verification raises on a string that is not a hash of the scheme
    ([None]). *)
Class CryptContext : Type := {
  pwd_hash : string -> string -> string;            (* salt, secret *)
  pwd_verify : string -> string -> option bool      (* secret, hash *)
}.

(** A secret verifies against its own hash. *)
Class CryptLaws (C : CryptContext) : Prop := {
  pwd_verify_hash : forall salt secret,
    pwd_verify secret (pwd_hash salt secret) = Some true
}.

(** The registered claims PyJWT validates besides [exp] and [sub]. *)
Definition validated_claims : list string :=
  ["iss"; "aud"; "nbf"; "iat"; "jti"].

(** A payload whose only registered claims are a textual [sub] and [exp]. *)
Definition plain_claims (payload : dict) : Prop :=
  (forall k, k ∈ validated_claims -> payload !! k = None) /\
  (payload !! "sub" = None \/ exists s, payload !! "sub" = Some (VStr s)).

(** PyJWT. Decoding reads the clock ([now]) and answers [None] where the
    library raises a [PyJWTError] (bad signature, malformed token, expired
    signature). *)
Class JwtCodec : Type := {
  token : Type;
  jwt_encode : dict -> string -> string -> token;
  jwt_decode : token -> string -> list string -> Z -> option dict
}.

(** What the proofs use of the HS256 scheme: a token decodes, under the key
    that signed it, to its claims before its expiry and to nothing after.
    Nothing is said of a token verified at the very second it expires. *)
Class JwtLaws (J : JwtCodec) : Prop := {
  jwt_decode_valid : forall payload key now e,
    key <> "" ->
    payload !! "exp" = Some (VInt e) -> plain_claims payload -> now < e ->
    jwt_decode (jwt_encode payload key "HS256") key ["HS256"] now
    = Some payload;
  jwt_decode_expired : forall payload key now e,
    key <> "" ->
    payload !! "exp" = Some (VInt e) -> e < now ->
    jwt_decode (jwt_encode payload key "HS256") key ["HS256"] now = None
}.

(** ** The state of the world *)

Record Database : Type := {
  users : list User;
  podcasts : list Podcast;
  episodes : list Episode
}.

Record World : Type := {
  db : Database;
  UPLOAD_DIR : gmap string bytes      (* file name -> content *)
}.

Definition insert_user (u : User) (w : World) : World :=
  {| db := {| users := insert_one (users (db w)) u;
              podcasts := podcasts (db w);
              episodes := episodes (db w) |};
     UPLOAD_DIR := UPLOAD_DIR w |}.

Definition insert_podcast (p : Podcast) (w : World) : World :=
  {| db := {| users := users (db w);
              podcasts := insert_one (podcasts (db w)) p;
              episodes := episodes (db w) |};
     UPLOAD_DIR := UPLOAD_DIR w |}.

Definition insert_episode (e : Episode) (w : World) : World :=
  {| db := {| users := users (db w);
              podcasts := podcasts (db w);
              episodes := insert_one (episodes (db w)) e |};
     UPLOAD_DIR := UPLOAD_DIR w |}.

(** Opening [UPLOAD_DIR / filename] in mode ['wb'] and writing [content]. *)
Definition write_file (filename : string) (content : bytes) (w : World)
  : World :=
  {| db := db w; UPLOAD_DIR := <[filename := content]> (UPLOAD_DIR w) |}.

(** ** server.py *)

(* JWT and Password settings *)
Definition SECRET_KEY : string := "your-secret-key-change-in-production".
Definition ALGORITHM : string := "HS256".
Definition ACCESS_TOKEN_EXPIRE_MINUTES : Z := 30.

(** [timedelta(minutes=m)] *)
Definition minutes (m : Z) : Z := m * 60.

(** An uploaded file, as the handler reads it. *)
Record UploadFile : Type := {
  filename : string;
  content : bytes
}.

(** The body of a successful login. *)
Record LoginResponse (T : Type) : Type := {
  access_token : T;
  token_type : string;
  user : UserResponse
}.
Arguments access_token {T} _.
Arguments token_type {T} _.
Arguments user {T} _.

Section Server.

Context {RE : RegexEngine} {CC : CryptContext} {JC : JwtCodec}.

Local Open Scope handler_scope.

Definition db_find_one {D} `{Document D} (coll : Database -> list D)
    (q : query) : handler World (option D) :=
  fun w => (find_one (coll (db w)) q, w).

Definition db_find_to_list {D} `{Document D} (coll : Database -> list D)
    (q : query) (n : nat) : handler World (list D) :=
  fun w => (find_to_list (coll (db w)) q n, w).

(* Helper functions *)
Definition verify_password (plain_password hashed_password : string)
  : option bool :=
  pwd_verify plain_password hashed_password.

Definition get_password_hash (salt password : string) : string :=
  pwd_hash salt password.

(** The claims [create_access_token] signs: a copy of [data] with [exp]
    set. An absent or zero [expires_delta] is falsy and takes the
    else-branch. *)
Definition to_encode (data : dict) (expires_delta : option Z) (utcnow : Z)
  : dict :=
  let expire :=
    match expires_delta with
    | Some delta =>
        if delta =? 0 then utcnow + minutes 15 else utcnow + delta
    | None => utcnow + minutes 15
    end in
  <["exp" := VInt expire]> data.

(** The lifetime that results: the given one unless absent or zero. *)
Definition lifetime (expires_delta : option Z) : Z :=
  match expires_delta with
  | Some delta => if delta =? 0 then minutes 15 else delta
  | None => minutes 15
  end.

Definition create_access_token (data : dict) (expires_delta : option Z)
    (utcnow : Z) : token :=
  jwt_encode (to_encode data expires_delta utcnow) SECRET_KEY ALGORITHM.

Definition get_current_user (credentials : token) (utcnow : Z)
  : handler World User :=
  match jwt_decode credentials SECRET_KEY [ALGORITHM] utcnow with
  | None => raise 401 "Invalid authentication credentials"
  | Some payload =>
      let email := dict_get payload "sub" in
      match email with
      | VNone => raise 401 "Invalid authentication credentials"
      | _ =>
          user <- db_find_one users (Q_and [Q_eq "email" email]) ;;
          match user with
          | None => raise 401 "User not found"
          | Some u => ret u
          end
      end
  end.

(* Authentication routes *)
Definition register (user_data : UserCreate)
    (salt uuid4 : string) (utcnow : Z) : handler World UserResponse :=
  (* Check if user exists *)
  existing_user <-
    db_find_one users
      (Q_and [Q_eq "email" (VStr (UserCreate.email user_data))]) ;;
  match existing_user with
  | Some _ => raise 400 "Email already registered"
  | None =>
      (* Hash password and create user *)
      let hashed_password :=
        get_password_hash salt (UserCreate.password user_data) in
      let user :=
        {| User.id := uuid4;
           User.email := UserCreate.email user_data;
           User.username := UserCreate.username user_data;
           User.password_hash := hashed_password;
           User.role := UserCreate.role user_data;
           User.created_at := utcnow |} in
      modify (insert_user user) ;;;
      ret (UserResponse.of_user user)
  end.

Definition login (user_data : UserLogin) (utcnow : Z)
  : handler World (LoginResponse token) :=
  user <-
    db_find_one users
      (Q_and [Q_eq "email" (VStr (UserLogin.email user_data))]) ;;
  match user with
  | None => raise 401 "Incorrect email or password"
  | Some user =>
      match verify_password (UserLogin.password user_data)
                            (User.password_hash user) with
      | None => throw "UnknownHashError"
      | Some false => raise 401 "Incorrect email or password"
      | Some true =>
          let access_token_expires := minutes ACCESS_TOKEN_EXPIRE_MINUTES in
          let access_token :=
            create_access_token {["sub" := VStr (User.email user)]}
                                (Some access_token_expires) utcnow in
          ret {| access_token := access_token;
                 token_type := "bearer";
                 user := UserResponse.of_user user |}
      end
  end.

Definition get_current_user_info (current_user : User)
  : handler World UserResponse :=
  ret (UserResponse.of_user current_user).

(* Podcast routes *)
Definition create_podcast (podcast_data : PodcastCreate)
    (current_user : User) (uuid4 : string) (utcnow : Z)
  : handler World Podcast :=
  if negb (String.eqb (User.role current_user) "podcaster") then
    raise 403 "Only podcasters can create podcasts"
  else
    let podcast :=
      {| Podcast.id := uuid4;
         Podcast.title := PodcastCreate.title podcast_data;
         Podcast.description := PodcastCreate.description podcast_data;
         Podcast.creator_id := User.id current_user;
         Podcast.cover_image := None;
         Podcast.category := PodcastCreate.category podcast_data;
         Podcast.created_at := utcnow |} in
    modify (insert_podcast podcast) ;;;
    ret podcast.

Definition get_podcasts : handler World (list Podcast) :=
  db_find_to_list podcasts (Q_and []) 1000.

Definition get_my_podcasts (current_user : User)
  : handler World (list Podcast) :=
  if negb (String.eqb (User.role current_user) "podcaster") then
    raise 403 "Only podcasters can view their podcasts"
  else
    db_find_to_list podcasts
      (Q_and [Q_eq "creator_id" (VStr (User.id current_user))]) 1000.

Definition get_podcast (podcast_id : string) : handler World Podcast :=
  podcast <- db_find_one podcasts (Q_and [Q_eq "id" (VStr podcast_id)]) ;;
  match podcast with
  | None => raise 404 "Podcast not found"
  | Some podcast => ret podcast
  end.

(* Episode routes *)
Definition create_episode (podcast_id title description : string)
    (audio_file : UploadFile) (current_user : User)
    (uuid4_file uuid4_episode : string) (utcnow : Z)
  : handler World Episode :=
  if negb (String.eqb (User.role current_user) "podcaster") then
    raise 403 "Only podcasters can upload episodes"
  else
    (* Check if podcast exists and user owns it *)
    podcast <-
      db_find_one podcasts
        (Q_and [Q_eq "id" (VStr podcast_id);
                Q_eq "creator_id" (VStr (User.id current_user))]) ;;
    match podcast with
    | None => raise 404 "Podcast not found or not owned by user"
    | Some _ =>
        (* Save audio file *)
        let file_extension :=
          Str.last_item (Str.split "." (filename audio_file)) in
        if negb (Str.mem (Str.lower file_extension) ["mp3"; "wav"; "ogg"])
        then raise 400 "Only MP3, WAV, and OGG files are supported"
        else
          let filename := uuid4_file +:+ "." +:+ file_extension in
          modify (write_file filename (content audio_file)) ;;;
          let episode :=
            {| Episode.id := uuid4_episode;
               Episode.podcast_id := podcast_id;
               Episode.title := title;
               Episode.description := description;
               Episode.audio_file := filename;
               Episode.duration := None;
               Episode.created_at := utcnow |} in
          modify (insert_episode episode) ;;;
          ret episode
    end.

Definition get_episodes (podcast_id : string)
  : handler World (list Episode) :=
  db_find_to_list episodes (Q_and [Q_eq "podcast_id" (VStr podcast_id)])
                  1000.

Definition get_all_episodes : handler World (list Episode) :=
  db_find_to_list episodes (Q_and []) 1000.

Definition get_episode (episode_id : string) : handler World Episode :=
  episode <- db_find_one episodes (Q_and [Q_eq "id" (VStr episode_id)]) ;;
  match episode with
  | None => raise 404 "Episode not found"
  | Some episode => ret episode
  end.

(* Search routes *)
Definition search (q : string)
  : handler World (list Podcast * list Episode) :=
  (* Search in podcast titles and descriptions *)
  podcast_results <-
    db_find_to_list podcasts
      (Q_and [Q_or [Q_regex "title" q "i";
                    Q_regex "description" q "i";
                    Q_regex "category" q "i"]]) 50 ;;
  (* Search in episode titles and descriptions *)
  episode_results <-
    db_find_to_list episodes
      (Q_and [Q_or [Q_regex "title" q "i";
                    Q_regex "description" q "i"]]) 50 ;;
  ret (podcast_results, episode_results).

(* Routes with a dependency *)

(** [Depends(dependency)] in the signature of an endpoint: the dependency
    runs first and its value is the argument of the endpoint; what it
    raises is the answer. *)
Definition Depends {A B} (dependency : handler World A)
    (endpoint : A -> handler World B) : handler World B :=
  x <- dependency ;; endpoint x.

(** The four endpoints that declare
    [current_user: User = Depends(get_current_user)], as the router calls
    them with the bearer token of the request; [now] is the clock the token
    is verified against. *)
Definition route_me (credentials : token) (now : Z)
  : handler World UserResponse :=
  Depends (get_current_user credentials now) get_current_user_info.

Definition route_create_podcast (credentials : token) (now : Z)
    (podcast_data : PodcastCreate) (uuid4 : string) (utcnow : Z)
  : handler World Podcast :=
  Depends (get_current_user credentials now)
          (fun current_user =>
             create_podcast podcast_data current_user uuid4 utcnow).

Definition route_my_podcasts (credentials : token) (now : Z)
  : handler World (list Podcast) :=
  Depends (get_current_user credentials now) get_my_podcasts.

Definition route_create_episode (credentials : token) (now : Z)
    (podcast_id title description : string) (audio_file : UploadFile)
    (uuid4_file uuid4_episode : string) (utcnow : Z)
  : handler World Episode :=
  Depends (get_current_user credentials now)
          (fun current_user =>
             create_episode podcast_id title description audio_file
                            current_user uuid4_file uuid4_episode utcnow).

End Server.

(** ** views.py *)

Module Views.

(** What [json.loads(request.body)] followed by [data.get] gives: the
    object of the body, or an exception with its message. *)
Inductive loads : Type :=
  | Loaded (data : dict)
  | LoadsError (message : string).

Record HttpRequest : Type := {
  method : string;
  body : loads
}.

Record JsonResponse : Type := {
  data : list (string * string);
  status : Z
}.

Section Views.

Context {RE : RegexEngine}.

(** The state is [users_collection], a collection of raw documents. *)
Definition register_user (request : HttpRequest)
    (users_collection : list dict) : JsonResponse * list dict :=
  if String.eqb (method request) "POST" then
    match body request with
    | LoadsError e =>
        ({| data := [("error", e)]; status := 500 |}, users_collection)
    | Loaded data =>
        let email := dict_get data "email" in
        let password := dict_get data "password" in
        if negb (truthy email) || negb (truthy password) then
          ({| data := [("error", "Email and password required")];
              status := 400 |}, users_collection)
        else
          match find_one users_collection
                         (Q_and [Q_eq "email" email]) with
          | Ok (Some _) =>
              ({| data := [("error", "User already exists")];
                  status := 409 |}, users_collection)
          | Ok None =>
              ({| data := [("message", "Registration successful")];
                  status := 201 |},
               insert_one users_collection
                 (<["email" := email]> (<["password" := password]> ∅)))
          | HTTPException _ e | Raised e =>
              ({| data := [("error", e)]; status := 500 |},
               users_collection)
          end
    end
  else
    ({| data := [("error", "Invalid request method")]; status := 405 |},
     users_collection).

End Views.

End Views.

(** ** Executable instances of the libraries *)

(** A backtracking matcher for a fragment of the pattern language:
    ordinary and escaped characters, [.], the postfix operators [*], [+]
    and [?], [^] in front and [$] at the end. A pattern outside the fragment
    is refused. *)
Module Pike.

Inductive tok : Type :=
  | TLit (c : ascii) | TDot | TStar | TPlus | TOpt | TCaret | TDollar.

Definition is_alnum (c : ascii) : bool :=
  let n := N_of_ascii c in
  (((48 <=? n) && (n <=? 57)) || ((65 <=? n) && (n <=? 90)) ||
   ((97 <=? n) && (n <=? 122)))%N.

Fixpoint tokens (p : string) : option (list tok) :=
  match p with
  | EmptyString => Some []
  | String c r =>
      match classify c with
      | Ordinary => cons (TLit c) <$> tokens r
      | Backslash =>
          match r with
          | String c2 r2 =>
              if is_alnum c2 then None else cons (TLit c2) <$> tokens r2
          | EmptyString => None
          end
      | Period => cons TDot <$> tokens r
      | Asterisk => cons TStar <$> tokens r
      | PlusSign => cons TPlus <$> tokens r
      | QuestionMark => cons TOpt <$> tokens r
      | Caret => cons TCaret <$> tokens r
      | Dollar => cons TDollar <$> tokens r
      | Bracket => None
      end
  end.

Inductive atom : Type := Lit (c : ascii) | Dot.
Inductive quant : Type := One | Star | Plus | Opt.

Definition add (a : atom) (q : quant)
    (r : option (list (atom * quant) * bool))
  : option (list (atom * quant) * bool) :=
  match r with
  | Some (its, e) => Some ((a, q) :: its, e)
  | None => None
  end.

(** The items of a pattern and whether it ends with [$]. *)
Fixpoint items (ts : list tok) : option (list (atom * quant) * bool) :=
  let item (a : atom) (rest : list tok) :=
    match rest with
    | TStar :: r => add a Star (items r)
    | TPlus :: r => add a Plus (items r)
    | TOpt :: r => add a Opt (items r)
    | _ => add a One (items rest)
    end in
  match ts with
  | [] => Some ([], false)
  | [TDollar] => Some ([], true)
  | TLit c :: rest => item (Lit c) rest
  | TDot :: rest => item Dot rest
  | _ => None
  end.

Definition atom_ok (ci : bool) (a : atom) (x : ascii) : bool :=
  match a with
  | Lit c =>
      if ci then Ascii.eqb (Str.lower_ascii c) (Str.lower_ascii x)
      else Ascii.eqb c x
  | Dot => negb (Ascii.eqb x "010")
  end.

(** Does a prefix of the subject (all of it when [at_end]) match? *)
Fixpoint match_here (ci at_end : bool) (its : list (atom * quant))
  : string -> bool :=
  match its with
  | [] => fun s =>
      if at_end then match s with EmptyString => true | _ => false end
      else true
  | (a, q) :: r =>
      let star :=
        fix star (s : string) : bool :=
          match_here ci at_end r s ||
          match s with
          | String x s' => atom_ok ci a x && star s'
          | EmptyString => false
          end in
      match q with
      | One => fun s =>
          match s with
          | String x s' => atom_ok ci a x && match_here ci at_end r s'
          | EmptyString => false
          end
      | Opt => fun s =>
          match_here ci at_end r s ||
          match s with
          | String x s' => atom_ok ci a x && match_here ci at_end r s'
          | EmptyString => false
          end
      | Star => star
      | Plus => fun s =>
          match s with
          | String x s' => atom_ok ci a x && star s'
          | EmptyString => false
          end
      end
  end.

Fixpoint match_anywhere (ci at_end : bool) (its : list (atom * quant))
    (s : string) : bool :=
  match_here ci at_end its s ||
  match s with
  | String _ s' => match_anywhere ci at_end its s'
  | EmptyString => false
  end.

Definition compile_tokens (ci : bool) (ts : list tok)
  : option (string -> bool) :=
  match ts with
  | TCaret :: ts' =>
      match items ts' with
      | Some (its, e) => Some (match_here ci e its)
      | None => None
      end
  | _ =>
      match items ts with
      | Some (its, e) => Some (match_anywhere ci e its)
      | None => None
      end
  end.

Definition compile (pattern options : string) : option (string -> bool) :=
  match options with
  | "" => tokens pattern ≫= compile_tokens false
  | "i" => tokens pattern ≫= compile_tokens true
  | _ => None
  end.

End Pike.

#[global] Instance pike_engine : RegexEngine := {|
  regex_compile := Pike.compile
|}.

(** Tokens as terms: a token signed by this process records its claims, the
    key and the scheme; any other bearer string is opaque. Decoding checks
    the key and the scheme, then the expiry claim against the clock. *)
Module SymbolicJwt.

Inductive t : Type :=
  | Signed (payload : dict) (key algorithm : string)
  | Opaque (s : string).

Definition encode (payload : dict) (key algorithm : string) : t :=
  Signed payload key algorithm.

Definition decode (tok : t) (key : string) (algorithms : list string)
    (now : Z) : option dict :=
  match tok with
  | Opaque _ => None
  | Signed payload k a =>
      if String.eqb k key && Str.mem a algorithms then
        match payload !! "exp" with
        | None => Some payload
        | Some (VInt e) => if e <=? now then None else Some payload
        | Some _ => None
        end
      else None
  end.

End SymbolicJwt.

#[global] Instance symbolic_jwt : JwtCodec := {|
  token := SymbolicJwt.t;
  jwt_encode := SymbolicJwt.encode;
  jwt_decode := SymbolicJwt.decode
|}.

(** Password hashes as terms: the digest records the scheme, the secret and
    the salt. *)
Module SymbolicCrypt.

Definition ident : string := "$2b$".

Definition hash (salt secret : string) : string :=
  ident +:+ secret +:+ "$" +:+ salt.

Definition verify (secret hashed : string) : option bool :=
  if Str.startswith ident hashed
  then Some (Str.startswith (ident +:+ secret +:+ "$") hashed)
  else None.

End SymbolicCrypt.

#[global] Instance symbolic_crypt : CryptContext := {|
  pwd_hash := SymbolicCrypt.hash;
  pwd_verify := SymbolicCrypt.verify
|}.

(** ** The predicates of the specification *)

(** The query occurs, letter case apart, in one of the text fields. *)
Definition podcast_contains (q : string) (p : Podcast) : bool :=
  Str.icontains q (Podcast.title p) ||
  Str.icontains q (Podcast.description p) ||
  Str.icontains q (Podcast.category p).

Definition episode_contains (q : string) (e : Episode) : bool :=
  Str.icontains q (Episode.title e) ||
  Str.icontains q (Episode.description e).

(** ** Invariants of the store *)

(** No two users share an email. *)
Definition emails_unique (w : World) : Prop :=
  NoDup (map User.email (users (db w))).

(** Every episode belongs to a stored show. *)
Definition episodes_have_shows (w : World) : Prop :=
  forall e, e ∈ episodes (db w) ->
  exists p, p ∈ podcasts (db w) /\ Podcast.id p = Episode.podcast_id e.

(** Every show was created by a stored user. *)
Definition shows_have_creators (w : World) : Prop :=
  forall p, p ∈ podcasts (db w) ->
  exists u, u ∈ users (db w) /\ User.id u = Podcast.creator_id p.

(** Nothing is removed or rewritten: each collection of [w'] starts with
    that of [w], and every file of [w] is still a file of [w']. *)
Definition grows (w w' : World) : Prop :=
  users (db w) `prefix_of` users (db w') /\
  podcasts (db w) `prefix_of` podcasts (db w') /\
  episodes (db w) `prefix_of` episodes (db w') /\
  dom (UPLOAD_DIR w) ⊆ dom (UPLOAD_DIR w').

(** An outcome other than a value. *)
Definition status_is_error {A} (r : result A) : Prop :=
  match r with Ok _ => False | _ => True end.

(** ** A small world to run the handlers on *)

Module Fixture.

Definition alice : User :=
  {| User.id := "u-alice";
     User.email := "alice@example.com";
     User.username := "alice";
     User.password_hash := SymbolicCrypt.hash "c2FsdA" "correct horse";
     User.role := "podcaster";
     User.created_at := 0 |}.

Definition bob : User :=
  {| User.id := "u-bob";
     User.email := "bob@example.com";
     User.username := "bob";
     User.password_hash := SymbolicCrypt.hash "cGVwcGVy" "battery staple";
     User.role := "listener";
     User.created_at := 5 |}.

Definition tech_show : Podcast :=
  {| Podcast.id := "p-tech";
     Podcast.title := "Bits";
     Podcast.description := "Weekly news";
     Podcast.creator_id := "u-alice";
     Podcast.cover_image := None;
     Podcast.category := "Technology";
     Podcast.created_at := 10 |}.

Definition music_show : Podcast :=
  {| Podcast.id := "p-music";
     Podcast.title := "abc";
     Podcast.description := "Songs";
     Podcast.creator_id := "u-carol";
     Podcast.cover_image := None;
     Podcast.category := "Music";
     Podcast.created_at := 20 |}.

Definition world : World :=
  {| db := {| users := [alice; bob];
              podcasts := [tech_show; music_show];
              episodes := [] |};
     UPLOAD_DIR := ∅ |}.

Definition payload : PodcastCreate :=
  {| PodcastCreate.title := "New";
     PodcastCreate.description := "A new show";
     PodcastCreate.category := "Talk" |}.

Definition upload (name : string) : UploadFile :=
  {| filename := name; content := [Byte.x52; Byte.x49; Byte.x46; Byte.x46] |}.

End Fixture.


(** * Properties *)

(** ** Strings *)

Lemma app_assoc_string (a b c : string) :
  (a +:+ b) +:+ c = a +:+ b +:+ c.
Proof.
  induction a as [|x a IH]; [reflexivity|].
  change (String x ((a +:+ b) +:+ c) = String x (a +:+ b +:+ c)).
  rewrite IH. reflexivity.
Qed.

Lemma startswith_app (p s : string) : Str.startswith p (p +:+ s) = true.
Proof.
  induction p as [|c p IH]; simpl; [reflexivity|].
  rewrite Ascii.eqb_refl. exact IH.
Qed.

(** [istartswith] is a prefix test on the lower-cased strings. *)
Lemma istartswith_spec (p s : string) :
  Str.istartswith p s = true <->
  exists mid post, s = mid +:+ post /\ Str.lower mid = Str.lower p.
Proof.
  revert s. induction p as [|a p IH]; intros s; simpl.
  - split; [|reflexivity]. intros _. exists EmptyString, s. split; reflexivity.
  - destruct s as [|b s].
    + split; [discriminate|]. intros (mid & post & Hs & Hl).
      destruct mid; simpl in *; discriminate.
    + rewrite andb_true_iff, Ascii.eqb_eq, IH. split.
      * intros (Hab & mid & post & -> & Hl).
        exists (String b mid), post. simpl. rewrite Hl, Hab. split; reflexivity.
      * intros (mid & post & Hs & Hl).
        destruct mid as [|m mid]; simpl in *; [discriminate|].
        injection Hs as -> ->. injection Hl as Hm Hl.
        split; [symmetry; exact Hm|]. exists mid, post. split; [reflexivity|exact Hl].
Qed.

(** [icontains q s] holds exactly when [s] has a substring that is [q] up
    to letter case. *)
Lemma icontains_spec (q s : string) :
  Str.icontains q s = true <->
  exists pre mid post,
    s = pre +:+ mid +:+ post /\ Str.lower mid = Str.lower q.
Proof.
  induction s as [|b s IH]; simpl.
  - rewrite orb_false_r, istartswith_spec. split.
    + intros (mid & post & Hs & Hl). exists EmptyString, mid, post.
      split; [exact Hs|exact Hl].
    + intros (pre & mid & post & Hs & Hl).
      destruct pre; simpl in Hs; [|discriminate].
      exists mid, post. split; [exact Hs|exact Hl].
  - rewrite orb_true_iff, istartswith_spec, IH. split.
    + intros [(mid & post & Hs & Hl) | (pre & mid & post & Hs & Hl)].
      * exists EmptyString, mid, post. split; [exact Hs|exact Hl].
      * exists (String b pre), mid, post. simpl. rewrite Hs.
        split; [reflexivity|exact Hl].
    + intros (pre & mid & post & Hs & Hl). destruct pre as [|c pre].
      * left. exists mid, post. split; [exact Hs|exact Hl].
      * right. simpl in Hs. injection Hs as -> ->.
        exists pre, mid, post. split; [reflexivity|exact Hl].
Qed.

(** Splitting cuts at every separator and nowhere else: the pieces hold no
    separator and joining them gives the string back. *)
Lemma split_pieces (sep : ascii) (s : string) :
  Forall (fun w => Str.lacks sep w = true) (Str.split sep s).
Proof.
  induction s as [|c s IH]; simpl.
  - repeat constructor.
  - destruct (Ascii.eqb c sep) eqn:Hc.
    + constructor; [reflexivity|exact IH].
    + destruct (Str.split sep s) as [|w ws].
      * constructor; [simpl; rewrite Hc; reflexivity|constructor].
      * inversion IH as [|? ? Hw Hws]; subst.
        constructor; [simpl; rewrite Hc, Hw; reflexivity|exact Hws].
Qed.

Lemma split_nonempty (sep : ascii) (s : string) : Str.split sep s <> [].
Proof.
  destruct s as [|c s]; simpl; [discriminate|].
  destruct (Ascii.eqb c sep); [discriminate|].
  destruct (Str.split sep s); discriminate.
Qed.

Lemma join_split (sep : ascii) (s : string) :
  Str.join sep (Str.split sep s) = s.
Proof.
  induction s as [|c s IH]; [reflexivity|].
  pose proof (split_nonempty sep s) as Hne. simpl.
  destruct (Ascii.eqb_spec c sep) as [->|Hc].
  - destruct (Str.split sep s) as [|w ws]; [contradiction|].
    change (String sep (Str.join sep (w :: ws)) = String sep s).
    rewrite IH. reflexivity.
  - destruct (Str.split sep s) as [|w ws]; [contradiction|].
    rewrite <- IH. destruct ws; reflexivity.
Qed.

Lemma join_last (sep : ascii) (l : list string) (w : string) :
  l <> [] -> Str.join sep (l ++ [w]) = Str.join sep l +:+ String sep w.
Proof.
  induction l as [|x l IH]; [contradiction|]. intros _.
  destruct l as [|y l]; [reflexivity|].
  change (x +:+ String sep (Str.join sep ((y :: l) ++ [w]))
          = (x +:+ String sep (Str.join sep (y :: l))) +:+ String sep w).
  rewrite IH by discriminate. rewrite app_assoc_string. reflexivity.
Qed.

(** The extension [create_episode] reads ([filename.split('.')[-1]]) holds
    no dot and is the whole name, when that has no dot, or else what follows
    its last dot. *)
Lemma file_extension_spec (name : string) :
  let ext := Str.last_item (Str.split "." name) in
  Str.lacks "." ext = true /\
  ((name = ext /\ Str.lacks "." name = true) \/
   exists stem, name = stem +:+ String "." ext).
Proof.
  intros ext. subst ext. unfold Str.last_item.
  pose proof (split_pieces "." name) as Hpieces.
  pose proof (join_split "." name) as Hjoin.
  pose proof (split_nonempty "." name) as Hne.
  destruct (exists_last Hne) as (init & w & Hsplit).
  rewrite Hsplit in *. rewrite last_last.
  apply Forall_app in Hpieces as [_ Hw]. apply List.Forall_inv in Hw.
  split; [exact Hw|].
  destruct init as [|x init].
  - left. simpl in Hjoin. subst w. split; [reflexivity|exact Hw].
  - right. rewrite join_last in Hjoin by discriminate.
    eexists. symmetry. exact Hjoin.
Qed.

Lemma icontains_empty (s : string) : Str.icontains EmptyString s = true.
Proof. destruct s; reflexivity. Qed.

(** ** The instances satisfy the laws *)

Lemma pike_tokens_literal (q : string) :
  literal q = true ->
  Pike.tokens q = Some (map Pike.TLit (list_ascii_of_string q)).
Proof.
  induction q as [|c q IH]; simpl; [reflexivity|].
  destruct (classify c); try discriminate.
  intros Hq. rewrite (IH Hq). reflexivity.
Qed.

Lemma pike_items_literal (l : list ascii) :
  Pike.items (map Pike.TLit l)
  = Some (map (fun c => (Pike.Lit c, Pike.One)) l, false).
Proof.
  induction l as [|c l IH]; [reflexivity|].
  destruct l as [|c' l]; [reflexivity|].
  change (Pike.add (Pike.Lit c) Pike.One
            (Pike.items (map Pike.TLit (c' :: l))) = 
          Some (map (fun c => (Pike.Lit c, Pike.One)) (c :: c' :: l), false)).
  rewrite IH. reflexivity.
Qed.

Lemma pike_match_here_literal (l : list ascii) (s : string) :
  Pike.match_here true false (map (fun c => (Pike.Lit c, Pike.One)) l) s
  = Str.istartswith (string_of_list_ascii l) s.
Proof.
  revert s. induction l as [|c l IH]; intros s; simpl; [reflexivity|].
  destruct s as [|x s]; [reflexivity|]. rewrite IH. reflexivity.
Qed.

Lemma pike_match_anywhere_literal (l : list ascii) (s : string) :
  Pike.match_anywhere true false (map (fun c => (Pike.Lit c, Pike.One)) l) s
  = Str.icontains (string_of_list_ascii l) s.
Proof.
  induction s as [|x s IH]; simpl;
    rewrite pike_match_here_literal; [reflexivity|].
  rewrite IH. reflexivity.
Qed.

Lemma pike_compile_literal (q : string) :
  literal q = true ->
  exists m, Pike.compile q "i" = Some m /\
            forall s, m s = Str.icontains q s.
Proof.
  intros Hq.
  exists (Pike.match_anywhere true false
            (map (fun c => (Pike.Lit c, Pike.One)) (list_ascii_of_string q))).
  split.
  - unfold Pike.compile. rewrite (pike_tokens_literal q Hq). simpl.
    unfold Pike.compile_tokens.
    destruct (list_ascii_of_string q) as [|c l] eqn:E; [reflexivity|].
    change (Pike.TLit c :: map Pike.TLit l) with (map Pike.TLit (c :: l)).
    cbv beta iota. rewrite pike_items_literal. reflexivity.
  - intros s. rewrite pike_match_anywhere_literal.
    rewrite string_of_list_ascii_of_string. reflexivity.
Qed.

#[global] Instance pike_laws : RegexLaws pike_engine.
Proof. split. exact pike_compile_literal. Qed.

Lemma symbolic_decode_valid (payload : dict) (key : string) (now e : Z) :
  payload !! "exp" = Some (VInt e) -> plain_claims payload -> now < e ->
  SymbolicJwt.decode (SymbolicJwt.encode payload key "HS256") key ["HS256"]
                     now
  = Some payload.
Proof.
  intros Hexp _ Hlt. unfold SymbolicJwt.decode, SymbolicJwt.encode.
  rewrite String.eqb_refl. simpl. rewrite Hexp.
  destruct (Z.leb_spec e now); [lia|reflexivity].
Qed.

Lemma symbolic_decode_expired (payload : dict) (key : string) (now e : Z) :
  payload !! "exp" = Some (VInt e) -> e < now ->
  SymbolicJwt.decode (SymbolicJwt.encode payload key "HS256") key ["HS256"]
                     now
  = None.
Proof.
  intros Hexp Hlt. unfold SymbolicJwt.decode, SymbolicJwt.encode.
  rewrite String.eqb_refl. simpl. rewrite Hexp.
  destruct (Z.leb_spec e now); [reflexivity|lia].
Qed.

#[global] Instance symbolic_jwt_laws : JwtLaws symbolic_jwt.
Proof.
  split.
  - intros payload key now e _. apply symbolic_decode_valid.
  - intros payload key now e _. apply symbolic_decode_expired.
Qed.

Lemma symbolic_verify_hash (salt secret : string) :
  SymbolicCrypt.verify secret (SymbolicCrypt.hash salt secret) = Some true.
Proof.
  unfold SymbolicCrypt.verify, SymbolicCrypt.hash.
  rewrite startswith_app.
  rewrite <- (app_assoc_string secret "$" salt).
  rewrite <- (app_assoc_string SymbolicCrypt.ident (secret +:+ "$") salt).
  rewrite startswith_app. reflexivity.
Qed.

#[global] Instance symbolic_crypt_laws : CryptLaws symbolic_crypt.
Proof. split. exact symbolic_verify_hash. Qed.

(** ** Queries *)

Lemma find_ext {A} (f g : A -> bool) (l : list A) :
  (forall x, f x = g x) -> List.find f l = List.find g l.
Proof.
  intros Hfg. induction l as [|x l IH]; simpl; [reflexivity|].
  rewrite Hfg, IH. reflexivity.
Qed.

Lemma find_appended {A} (f : A -> bool) (l : list A) (x : A) :
  List.find f l = None -> f x = true -> List.find f (l ++ [x]) = Some x.
Proof.
  intros Hnone Hx. induction l as [|y l IH]; simpl in *.
  - rewrite Hx. reflexivity.
  - destruct (f y); [discriminate|]. exact (IH Hnone).
Qed.

Lemma value_str_eqb (a b : string) :
  bool_decide (VStr a = VStr b) = String.eqb a b.
Proof.
  destruct (String.eqb_spec a b) as [->|Hne].
  - apply bool_decide_eq_true. reflexivity.
  - apply bool_decide_eq_false. intros [=]. contradiction.
Qed.

Section QueryProperties.

Context {RE : RegexEngine}.

(** Looking a user up by email finds the first one with that email. *)
Lemma find_one_email (coll : list User) (e : string) :
  find_one coll (Q_and [Q_eq "email" (VStr e)])
  = Ok (List.find (fun u => String.eqb (User.email u) e) coll).
Proof.
  unfold find_one. simpl. f_equal. apply find_ext. intros u.
  rewrite andb_true_r. apply value_str_eqb.
Qed.

(** The ownership query of [create_episode]. *)
Lemma find_one_owned (coll : list Podcast) (pid uid : string) :
  find_one coll (Q_and [Q_eq "id" (VStr pid); Q_eq "creator_id" (VStr uid)])
  = Ok (List.find (fun p => String.eqb (Podcast.id p) pid &&
                            String.eqb (Podcast.creator_id p) uid) coll).
Proof.
  unfold find_one. simpl. f_equal. apply find_ext. intros p.
  rewrite andb_true_r. f_equal; apply value_str_eqb.
Qed.

End QueryProperties.

(** ** Tokens and the current user *)

Lemma SECRET_KEY_nonempty : SECRET_KEY <> "".
Proof. discriminate. Qed.

Section TokenProperties.

Context {RE : RegexEngine} {CC : CryptContext}.
Context {JC : JwtCodec} {JL : JwtLaws JC}.

(** The expiry claim of an issued token is the instant of issuance plus
    the token's lifetime. *)
Lemma to_encode_exp (data : dict) (expires_delta : option Z) (utcnow : Z) :
  to_encode data expires_delta utcnow !! "exp"
  = Some (VInt (utcnow + lifetime expires_delta)).
Proof.
  unfold to_encode, lifetime. rewrite lookup_insert_eq.
  destruct expires_delta as [delta|]; [|reflexivity].
  destruct (delta =? 0); reflexivity.
Qed.

Lemma to_encode_other (data : dict) (expires_delta : option Z) (utcnow : Z)
    (k : string) :
  k <> "exp" -> to_encode data expires_delta utcnow !! k = data !! k.
Proof.
  intros Hk. unfold to_encode. apply lookup_insert_ne. congruence.
Qed.

Lemma to_encode_plain (data : dict) (expires_delta : option Z) (utcnow : Z) :
  plain_claims data -> plain_claims (to_encode data expires_delta utcnow).
Proof.
  intros [Hv Hs]. split.
  - intros k Hk. rewrite to_encode_other; [exact (Hv k Hk)|].
    intros ->. unfold validated_claims in Hk.
    repeat (apply elem_of_cons in Hk as [Hk|Hk]; [discriminate Hk|]).
    apply elem_of_nil in Hk. exact Hk.
  - rewrite to_encode_other by discriminate. exact Hs.
Qed.

(** A non-zero lifetime asked for is the lifetime given. *)
Lemma lifetime_explicit (ttl : Z) : ttl <> 0 -> lifetime (Some ttl) = ttl.
Proof.
  intros Hne. unfold lifetime. destruct (Z.eqb_spec ttl 0); [contradiction|].
  reflexivity.
Qed.

(** A zero lifetime asked for is replaced by the fallback. *)
Lemma lifetime_zero : lifetime (Some 0) = 900.
Proof. reflexivity. Qed.

(** C1. A token issued for subject [S] and verified before its lifetime has
    elapsed resolves to the stored user whose email is [S] (the first, should
    the store hold several); verified after its lifetime has elapsed it
    fails with 401. *)
Theorem token_resolves_until_expiry
    (w : World) (S : string) (u : User) (data : dict)
    (expires_delta : option Z) (issued now : Z) :
  data !! "sub" = Some (VStr S) ->
  plain_claims data ->
  List.find (fun v => String.eqb (User.email v) S) (users (db w)) = Some u ->
  let credentials := create_access_token data expires_delta issued in
  (now < issued + lifetime expires_delta ->
     get_current_user credentials now w = (Ok u, w) /\ User.email u = S) /\
  (issued + lifetime expires_delta < now ->
     get_current_user credentials now w
     = (HTTPException 401 "Invalid authentication credentials", w)).
Proof.
  intros Hsub Hplain Hfind credentials. subst credentials.
  unfold get_current_user, create_access_token, ALGORITHM. split.
  - intros Hnow.
    rewrite (jwt_decode_valid _ _ _ _ SECRET_KEY_nonempty
               (to_encode_exp data expires_delta issued)
               (to_encode_plain _ _ _ Hplain) Hnow).
    unfold dict_get. rewrite to_encode_other by discriminate.
    rewrite Hsub. simpl. unfold bind, db_find_one.
    rewrite find_one_email, Hfind. split; [reflexivity|].
    apply List.find_some in Hfind as [_ He].
    apply String.eqb_eq. exact He.
  - intros Hnow.
    rewrite (jwt_decode_expired _ _ _ _ SECRET_KEY_nonempty
               (to_encode_exp data expires_delta issued) Hnow).
    reflexivity.
Qed.

(** C9. A token that decodes (valid signature, not expired) to a payload
    without a ["sub"] field is refused with 401 and resolves no user. *)
Theorem token_without_sub_unauthorized
    (w : World) (credentials : token) (payload : dict) (now : Z) :
  jwt_decode credentials SECRET_KEY [ALGORITHM] now = Some payload ->
  payload !! "sub" = None ->
  get_current_user credentials now w
  = (HTTPException 401 "Invalid authentication credentials", w).
Proof.
  intros Hdec Hsub. unfold get_current_user. rewrite Hdec.
  unfold dict_get. rewrite Hsub. reflexivity.
Qed.

(** C8 (as the code has it). Issued without an explicit lifetime, a token
    expires 15 minutes after issuance; the tokens [login] issues are given
    the explicit lifetime [ACCESS_TOKEN_EXPIRE_MINUTES] and expire 30
    minutes after issuance. *)
Theorem default_lifetime_is_15_minutes
    (data : dict) (user_data : UserLogin) (utcnow : Z) (w w' : World)
    (r : LoginResponse token) :
  create_access_token data None utcnow
  = jwt_encode (<["exp" := VInt (utcnow + 15 * 60)]> data)
               SECRET_KEY ALGORITHM /\
  (login user_data utcnow w = (Ok r, w') ->
   exists sub,
     access_token r
     = jwt_encode (<["exp" := VInt (utcnow + 30 * 60)]> {["sub" := sub]})
                  SECRET_KEY ALGORITHM).
Proof.
  split; [reflexivity|].
  unfold login, bind, db_find_one. rewrite find_one_email.
  destruct (List.find _ _) as [user|]; [|discriminate].
  unfold verify_password.
  destruct (pwd_verify _ _) as [[|]|]; try discriminate.
  intros [= <- _]. exists (VStr (User.email user)). reflexivity.
Qed.

End TokenProperties.

(** ** Registration and login *)

Section AccountProperties.

Context {RE : RegexEngine} {JC : JwtCodec}.
Context {CC : CryptContext} {CL : CryptLaws CC}.

(** C3. A login with an email the store does not hold and a login with a
    stored email but a password that fails verification end in the same
    failure, status and detail alike, and leave the store as it was. *)
Theorem login_failures_indistinguishable
    (w : World) (unknown wrong : UserLogin) (u : User) (now1 now2 : Z) :
  List.find (fun v => String.eqb (User.email v) (UserLogin.email unknown))
            (users (db w)) = None ->
  List.find (fun v => String.eqb (User.email v) (UserLogin.email wrong))
            (users (db w)) = Some u ->
  verify_password (UserLogin.password wrong) (User.password_hash u)
  = Some false ->
  login unknown now1 w = login wrong now2 w /\
  login wrong now2 w
  = (HTTPException 401 "Incorrect email or password", w).
Proof.
  intros Hunknown Hwrong Hverify.
  unfold login, bind, db_find_one.
  rewrite !find_one_email, Hunknown, Hwrong, Hverify.
  split; reflexivity.
Qed.

(** Registration in server.py with an email already stored fails with 400
    and changes nothing. *)
Lemma register_conflict
    (w : World) (user_data : UserCreate) (existing : User)
    (salt uuid4 : string) (utcnow : Z) :
  List.find (fun v => String.eqb (User.email v) (UserCreate.email user_data))
            (users (db w)) = Some existing ->
  register user_data salt uuid4 utcnow w
  = (HTTPException 400 "Email already registered", w).
Proof.
  intros Hfind. unfold register, bind, db_find_one.
  rewrite find_one_email, Hfind. reflexivity.
Qed.

(** Registration in server.py with a new email appends one user whose
    password field is the hash of the password. *)
Lemma register_fresh
    (w : World) (user_data : UserCreate) (salt uuid4 : string) (utcnow : Z) :
  List.find (fun v => String.eqb (User.email v) (UserCreate.email user_data))
            (users (db w)) = None ->
  let user :=
    {| User.id := uuid4;
       User.email := UserCreate.email user_data;
       User.username := UserCreate.username user_data;
       User.password_hash := pwd_hash salt (UserCreate.password user_data);
       User.role := UserCreate.role user_data;
       User.created_at := utcnow |} in
  register user_data salt uuid4 utcnow w
  = (Ok (UserResponse.of_user user), insert_user user w) /\
  users (db (insert_user user w)) = users (db w) ++ [user].
Proof.
  intros Hfind user. unfold register, bind, db_find_one.
  rewrite find_one_email, Hfind. split; reflexivity.
Qed.


(** Registered, then logged in with the same password: the login
    succeeds and answers with the registered user. *)
Lemma register_then_login
    (w : World) (user_data : UserCreate) (salt uuid4 : string)
    (t1 t2 : Z) (r : UserResponse) (w1 : World) :
  register user_data salt uuid4 t1 w = (Ok r, w1) ->
  exists l,
    login {| UserLogin.email := UserCreate.email user_data;
             UserLogin.password := UserCreate.password user_data |} t2 w1
    = (Ok l, w1) /\ user l = r.
Proof.
  destruct (List.find
              (fun v => String.eqb (User.email v) (UserCreate.email user_data))
              (users (db w))) as [existing|] eqn:Hfind.
  - rewrite (register_conflict w user_data existing salt uuid4 t1 Hfind).
    discriminate.
  - destruct (register_fresh w user_data salt uuid4 t1 Hfind) as [-> Husers].
    intros [= <- <-].
    unfold login, bind, db_find_one. rewrite find_one_email, Husers.
    cbn [UserLogin.email UserLogin.password].
    rewrite (find_appended _ _ _ Hfind) by apply String.eqb_refl.
    unfold verify_password. cbn [User.password_hash].
    rewrite pwd_verify_hash. eexists. split; reflexivity.
Qed.

End AccountProperties.

(** ** Registration in views.py *)

Section ViewsProperties.

Context {RE : RegexEngine}.

(** The registration view stores the password it was sent: for a new
    email, the document appended to the collection holds the password of
    the request under ["password"]. *)
Lemma views_register_fresh
    (request : Views.HttpRequest) (data : dict) (users_collection : list dict) :
  Views.method request = "POST" ->
  Views.body request = Views.Loaded data ->
  truthy (dict_get data "email") = true ->
  truthy (dict_get data "password") = true ->
  List.find (fun d => bool_decide (dict_get d "email" = dict_get data "email"))
            users_collection = None ->
  exists doc,
    Views.register_user request users_collection
    = ({| Views.data := [("message", "Registration successful")];
          Views.status := 201 |}, users_collection ++ [doc]) /\
    dict_get doc "password" = dict_get data "password".
Proof.
  intros Hm Hb He Hp Hfind. unfold Views.register_user.
  rewrite Hm, Hb, He, Hp. simpl.
  unfold find_one. simpl.
  rewrite (find_ext _ (fun d => bool_decide
                         (dict_get d "email" = dict_get data "email")))
    by (intros d; apply andb_true_r).
  rewrite Hfind. eexists. split; [reflexivity|].
  unfold dict_get. rewrite lookup_insert_ne by discriminate.
  rewrite lookup_insert_eq. reflexivity.
Qed.

(** C4 (the defect). Sent the email [a@b.c] and the password [hunter2],
    the registration view of views.py answers 201 and the collection then
    holds the password itself, not a hash of it. *)
Theorem views_register_user_stores_plaintext :
  exists doc,
    Views.register_user
      {| Views.method := "POST";
         Views.body :=
           Views.Loaded {[ "email" := VStr "a@b.c";
                           "password" := VStr "hunter2" ]} |} []
    = ({| Views.data := [("message", "Registration successful")];
          Views.status := 201 |}, [doc]) /\
    doc !! "password" = Some (VStr "hunter2").
Proof.
  eexists. split; [vm_compute; reflexivity|]. vm_compute. reflexivity.
Qed.

End ViewsProperties.

(** ** Shows and episodes *)

Lemma mem_spec (x : string) (l : list string) : Str.mem x l = true <-> x ∈ l.
Proof.
  unfold Str.mem. rewrite existsb_exists. split.
  - intros (y & Hy & He). apply String.eqb_eq in He as ->.
    apply list_elem_of_In. exact Hy.
  - intros Hx. exists x. split; [apply list_elem_of_In; exact Hx|].
    apply String.eqb_refl.
Qed.

Lemma find_none_iff {A} (f : A -> bool) (l : list A) :
  List.find f l = None <-> forall x, x ∈ l -> f x = false.
Proof.
  split.
  - intros Hf x Hx. apply (List.find_none f l Hf). apply list_elem_of_In.
    exact Hx.
  - intros Hall. destruct (List.find f l) as [x|] eqn:E; [|reflexivity].
    apply List.find_some in E as [Hin Hfx].
    apply list_elem_of_In in Hin. rewrite (Hall x Hin) in Hfx. discriminate.
Qed.

Section ContentProperties.

Context {RE : RegexEngine}.

(** C7. Whatever the payload, [create_podcast] fails with 403 for a user
    whose role is not podcaster and stores nothing; for a podcaster it
    appends a show whose creator is the acting user. *)
Theorem create_podcast_requires_podcaster
    (w : World) (podcast_data : PodcastCreate) (current_user : User)
    (uuid4 : string) (utcnow : Z) :
  (User.role current_user <> "podcaster" ->
   create_podcast podcast_data current_user uuid4 utcnow w
   = (HTTPException 403 "Only podcasters can create podcasts", w)) /\
  (User.role current_user = "podcaster" ->
   exists p w',
     create_podcast podcast_data current_user uuid4 utcnow w = (Ok p, w') /\
     Podcast.creator_id p = User.id current_user /\
     podcasts (db w') = podcasts (db w) ++ [p]).
Proof.
  unfold create_podcast. split; intros Hrole.
  - apply String.eqb_neq in Hrole. rewrite Hrole. reflexivity.
  - apply String.eqb_eq in Hrole. rewrite Hrole. simpl.
    eexists _, _. split; [reflexivity|]. split; reflexivity.
Qed.

(** C2. For a podcaster, [create_episode] fails with 404, and changes
    nothing, exactly when the store holds no show with the given id whose
    creator is the acting user; so a show of that id owned by someone else
    gives 404, not 403. *)
Theorem create_episode_not_found_unless_owned
    (w : World) (podcast_id title description : string)
    (audio_file : UploadFile) (current_user : User)
    (uuid4_file uuid4_episode : string) (utcnow : Z) :
  User.role current_user = "podcaster" ->
  create_episode podcast_id title description audio_file current_user
                 uuid4_file uuid4_episode utcnow w
  = (HTTPException 404 "Podcast not found or not owned by user", w)
  <->
  ~ exists p, p ∈ podcasts (db w) /\ Podcast.id p = podcast_id /\
              Podcast.creator_id p = User.id current_user.
Proof.
  intros Hrole. apply String.eqb_eq in Hrole.
  unfold create_episode, bind, db_find_one.
  rewrite Hrole. cbn [negb]. rewrite find_one_owned.
  destruct (List.find _ _) as [p|] eqn:Hfind.
  - apply List.find_some in Hfind as [Hin Hp].
    apply andb_prop in Hp as [Hid Hcr].
    apply String.eqb_eq in Hid, Hcr. apply list_elem_of_In in Hin.
    split.
    + destruct (negb _); discriminate.
    + intros Hnone. exfalso. apply Hnone. exists p. auto.
  - split; [|reflexivity]. intros _ (p & Hin & Hid & Hcr).
    rewrite find_none_iff in Hfind. specialize (Hfind p Hin).
    rewrite Hid, Hcr, !String.eqb_refl in Hfind. discriminate.
Qed.

(** C5. The upload step of [create_episode], reached by a podcaster on a
    show of their own. An extension (the text after the last dot of the
    file name) that is not mp3, wav or ogg, letter case apart, is refused
    with 400 and nothing is written or stored. Otherwise the whole
    content is written under the key made of the generated identifier and
    the extension, the episode returned refers to that key, and the key
    differs from the file name sent as long as the generated identifier is
    not how that name begins. *)
Theorem upload_checks_extension
    (w : World) (podcast_id title description : string)
    (audio_file : UploadFile) (current_user : User) (owned : Podcast)
    (uuid4_file uuid4_episode : string) (utcnow : Z) :
  User.role current_user = "podcaster" ->
  List.find (fun p => String.eqb (Podcast.id p) podcast_id &&
                      String.eqb (Podcast.creator_id p) (User.id current_user))
            (podcasts (db w)) = Some owned ->
  let file_extension := Str.last_item (Str.split "." (filename audio_file)) in
  let key := uuid4_file +:+ "." +:+ file_extension in
  (Str.lower file_extension ∉ ["mp3"; "wav"; "ogg"] ->
   create_episode podcast_id title description audio_file current_user
                  uuid4_file uuid4_episode utcnow w
   = (HTTPException 400 "Only MP3, WAV, and OGG files are supported", w)) /\
  (Str.lower file_extension ∈ ["mp3"; "wav"; "ogg"] ->
   exists e w',
     create_episode podcast_id title description audio_file current_user
                    uuid4_file uuid4_episode utcnow w = (Ok e, w') /\
     Episode.audio_file e = key /\
     UPLOAD_DIR w' = <[key := content audio_file]> (UPLOAD_DIR w) /\
     episodes (db w') = episodes (db w) ++ [e] /\
     (Str.startswith uuid4_file (filename audio_file) = false ->
      key <> filename audio_file)).
Proof.
  intros Hrole Hfind file_extension key. apply String.eqb_eq in Hrole.
  unfold create_episode, bind, db_find_one.
  rewrite Hrole. cbn [negb]. rewrite find_one_owned, Hfind.
  fold file_extension. split; intros Hext.
  - destruct (Str.mem _ _) eqn:Hmem.
    + apply mem_spec in Hmem. contradiction.
    + reflexivity.
  - apply mem_spec in Hext. rewrite Hext. simpl.
    eexists _, _. split; [reflexivity|]. simpl.
    repeat split. intros Hfresh Heq. fold key in Heq.
    rewrite <- Heq in Hfresh. unfold key in Hfresh.
    rewrite startswith_app in Hfresh. discriminate.
Qed.

End ContentProperties.

(** ** Search *)

Lemma filter_all {A} (f : A -> bool) (l : list A) :
  (forall x, f x = true) -> List.filter f l = l.
Proof.
  intros Hf. induction l as [|x l IH]; simpl; [reflexivity|].
  rewrite Hf, IH. reflexivity.
Qed.

Section SearchProperties.

Context {RE : RegexEngine} {RL : RegexLaws RE}.

(** A query of ordinary characters is searched for as a substring. *)
Lemma search_literal (q : string) (w : World) :
  literal q = true ->
  search q w
  = (Ok (take 50 (List.filter (podcast_contains q) (podcasts (db w))),
         take 50 (List.filter (episode_contains q) (episodes (db w)))), w).
Proof.
  intros Hq. destruct (regex_literal q Hq) as (m & Hm & Hspec).
  unfold search, bind, db_find_to_list, find_to_list. simpl.
  rewrite Hm. simpl. unfold ret.
  rewrite (List.filter_ext _ (podcast_contains q)), 
          (List.filter_ext _ (episode_contains q)); [reflexivity| |].
  - intros e. unfold episode_contains.
    rewrite !Hspec, orb_false_r, andb_true_r. reflexivity.
  - intros p. unfold podcast_contains.
    rewrite !Hspec, orb_false_r, andb_true_r, orb_assoc. reflexivity.
Qed.

(** C6 (as the code has it). The query is handed to the store as a
    regular expression. For a query of ordinary characters, [search]
    returns the first 50 of the shows whose title, description or
    category contains it as a substring, letter case apart, and the first
    50 of the episodes whose title or description does. *)
Theorem search_literal_is_substring (q : string) (w : World) :
  literal q = true ->
  exists shows eps,
    search q w = (Ok (shows, eps), w) /\
    shows = take 50 (List.filter (podcast_contains q) (podcasts (db w))) /\
    eps = take 50 (List.filter (episode_contains q) (episodes (db w))) /\
    (length shows <= 50)%nat /\ (length eps <= 50)%nat.
Proof.
  intros Hq. eexists _, _. split; [apply search_literal; exact Hq|].
  split; [reflexivity|]. split; [reflexivity|].
  rewrite !length_take. split; lia.
Qed.

(** C10. The empty query is accepted and every show and episode satisfies
    the search predicate: [search] returns the first 50 shows and the
    first 50 episodes of the whole store, none of the two lists empty
    when the store holds a show, respectively an episode. *)
Theorem search_empty_query (w : World) :
  exists shows eps,
    search "" w = (Ok (shows, eps), w) /\
    shows = take 50 (podcasts (db w)) /\
    eps = take 50 (episodes (db w)) /\
    (forall p, podcast_contains "" p = true) /\
    (forall e, episode_contains "" e = true) /\
    (podcasts (db w) <> [] -> shows <> []) /\
    (episodes (db w) <> [] -> eps <> []).
Proof.
  assert (Hp : forall p, podcast_contains "" p = true).
  { intros p. unfold podcast_contains. rewrite icontains_empty. reflexivity. }
  assert (He : forall e, episode_contains "" e = true).
  { intros e. unfold episode_contains. rewrite icontains_empty. reflexivity. }
  eexists _, _. split.
  { rewrite search_literal by reflexivity.
    rewrite (filter_all _ _ Hp), (filter_all _ _ He). reflexivity. }
  do 4 (split; [reflexivity || assumption|]).
  split; intros Hne; (destruct (_ (db w)); [contradiction|discriminate]).
Qed.

End SearchProperties.

(** * The properties at work on the small world *)

Lemma plain_claims_sub (S : string) : plain_claims {["sub" := VStr S]}.
Proof.
  split.
  - intros k Hk. apply lookup_singleton_ne. intros <-.
    unfold validated_claims in Hk.
    repeat (apply elem_of_cons in Hk as [Hk|Hk]; [discriminate Hk|]).
    apply elem_of_nil in Hk. exact Hk.
  - right. exists S. apply lookup_singleton_eq.
Qed.

(** Alice's 30-minute token, one second before and one second after its
    expiry. *)
Lemma token_resolves_until_expiry_witness :
  let credentials :=
    create_access_token {["sub" := VStr "alice@example.com"]} (Some 1800) 0 in
  get_current_user credentials 1799 Fixture.world
  = (Ok Fixture.alice, Fixture.world) /\
  get_current_user credentials 1801 Fixture.world
  = (HTTPException 401 "Invalid authentication credentials", Fixture.world).
Proof.
  split.
  - apply (token_resolves_until_expiry Fixture.world "alice@example.com"
             Fixture.alice {["sub" := VStr "alice@example.com"]}
             (Some 1800) 0 1799);
      [apply lookup_singleton_eq | apply plain_claims_sub | reflexivity
      | reflexivity].
  - apply (token_resolves_until_expiry Fixture.world "alice@example.com"
             Fixture.alice {["sub" := VStr "alice@example.com"]}
             (Some 1800) 0 1801);
      [apply lookup_singleton_eq | apply plain_claims_sub | reflexivity
      | reflexivity].
Defined.

(** A token signed with the key of the process that only carries an
    expiry. *)
Lemma token_without_sub_unauthorized_witness :
  get_current_user
    (jwt_encode {["exp" := VInt 100]} SECRET_KEY ALGORITHM) 0
    Fixture.world
  = (HTTPException 401 "Invalid authentication credentials", Fixture.world).
Proof.
  apply (token_without_sub_unauthorized Fixture.world
           (jwt_encode {["exp" := VInt 100]} SECRET_KEY ALGORITHM)
           {["exp" := VInt 100]} 0); reflexivity.
Defined.

(** Mallory is unknown, Alice's password is guessed wrong: one and the
    same answer. *)
Lemma login_failures_indistinguishable_witness :
  let unknown := {| UserLogin.email := "mallory@example.com";
                    UserLogin.password := "correct horse" |} in
  let wrong := {| UserLogin.email := "alice@example.com";
                  UserLogin.password := "guess" |} in
  login unknown 7 Fixture.world = login wrong 8 Fixture.world /\
  login wrong 8 Fixture.world
  = (HTTPException 401 "Incorrect email or password", Fixture.world).
Proof.
  apply (login_failures_indistinguishable Fixture.world
           {| UserLogin.email := "mallory@example.com";
              UserLogin.password := "correct horse" |}
           {| UserLogin.email := "alice@example.com";
              UserLogin.password := "guess" |}
           Fixture.alice 7 8); reflexivity.
Defined.

(** Alice, a podcaster, on the show Carol owns: 404, not 403. *)
Lemma create_episode_not_found_unless_owned_witness :
  create_episode "p-music" "E1" "First" (Fixture.upload "e1.wav")
                 Fixture.alice "k-1" "e-1" 30 Fixture.world
  = (HTTPException 404 "Podcast not found or not owned by user",
     Fixture.world).
Proof.
  apply (create_episode_not_found_unless_owned Fixture.world "p-music" "E1"
           "First" (Fixture.upload "e1.wav") Fixture.alice "k-1" "e-1" 30);
    [reflexivity|].
  intros (p & Hin & Hid & Hcr). simpl in Hin.
  repeat (apply elem_of_cons in Hin as [->|Hin];
            [discriminate Hid || discriminate Hcr|]).
  apply elem_of_nil in Hin. exact Hin.
Defined.

(** [track.exe] is refused and nothing is kept; [track.MP3] is written under
    a key that is not the name sent. *)
Lemma upload_checks_extension_witness :
  create_episode "p-tech" "E1" "First" (Fixture.upload "track.exe")
                 Fixture.alice "3f2a" "e-1" 30 Fixture.world
  = (HTTPException 400 "Only MP3, WAV, and OGG files are supported",
     Fixture.world) /\
  exists e w',
    create_episode "p-tech" "E1" "First" (Fixture.upload "track.MP3")
                   Fixture.alice "3f2a" "e-1" 30 Fixture.world = (Ok e, w') /\
    Episode.audio_file e = "3f2a.MP3" /\
    UPLOAD_DIR w' !! "3f2a.MP3" = Some (content (Fixture.upload "track.MP3")) /\
    Episode.audio_file e <> "track.MP3".
Proof.
  split.
  - apply (upload_checks_extension Fixture.world "p-tech" "E1" "First"
             (Fixture.upload "track.exe") Fixture.alice Fixture.tech_show
             "3f2a" "e-1" 30); [reflexivity|reflexivity|].
    intros Hin. apply mem_spec in Hin. discriminate Hin.
  - destruct (upload_checks_extension Fixture.world "p-tech" "E1" "First"
                (Fixture.upload "track.MP3") Fixture.alice Fixture.tech_show
                "3f2a" "e-1" 30 eq_refl eq_refl) as [_ Hok].
    destruct Hok as (e & w' & Hrun & Hkey & Hdir & _ & Hne).
    { apply mem_spec. reflexivity. }
    exists e, w'. split; [exact Hrun|]. split; [exact Hkey|].
    split.
    + rewrite Hdir. apply lookup_insert_eq.
    + rewrite Hkey. apply Hne. reflexivity.
Defined.

(** [tech] finds the show in category Technology and not the one in
    Music. *)
Lemma search_literal_is_substring_witness :
  exists shows eps,
    search "tech" Fixture.world = (Ok (shows, eps), Fixture.world) /\
    shows = [Fixture.tech_show] /\ eps = [].
Proof.
  destruct (search_literal_is_substring "tech" Fixture.world eq_refl)
    as (shows & eps & Hrun & Hshows & Heps & _).
  exists shows, eps. split; [exact Hrun|]. split.
  - rewrite Hshows. reflexivity.
  - rewrite Heps. reflexivity.
Defined.

(** C6 (counterexample). The query [a.c] is not a substring of any field of
    the show titled [abc], yet [search] returns that show: the query is read
    as a pattern. A query that is not a pattern ([(]) makes the search
    fail. *)
Lemma search_reads_query_as_pattern :
  search "a.c" Fixture.world
  = (Ok ([Fixture.music_show], []), Fixture.world) /\
  podcast_contains "a.c" Fixture.music_show = false /\
  search "(" Fixture.world = (Raised "OperationFailure", Fixture.world).
Proof. split; [|split]; reflexivity. Qed.

(** The empty query returns both shows of the small world. *)
Lemma search_empty_query_witness :
  exists shows eps,
    search "" Fixture.world = (Ok (shows, eps), Fixture.world) /\
    shows = [Fixture.tech_show; Fixture.music_show] /\ eps = [].
Proof.
  destruct (search_empty_query Fixture.world)
    as (shows & eps & Hrun & Hshows & Heps & _).
  exists shows, eps. split; [exact Hrun|]. split.
  - rewrite Hshows. reflexivity.
  - rewrite Heps. reflexivity.
Defined.

(** Bob, a listener, is refused whatever he sends; Alice's show is stored
    under her id. *)
Lemma create_podcast_requires_podcaster_witness :
  create_podcast Fixture.payload Fixture.bob "p-new" 40 Fixture.world
  = (HTTPException 403 "Only podcasters can create podcasts", Fixture.world)
  /\
  exists p w',
    create_podcast Fixture.payload Fixture.alice "p-new" 40 Fixture.world
    = (Ok p, w') /\
    Podcast.creator_id p = "u-alice" /\
    podcasts (db w') = [Fixture.tech_show; Fixture.music_show; p].
Proof.
  split.
  - apply (create_podcast_requires_podcaster Fixture.world Fixture.payload
             Fixture.bob "p-new" 40). discriminate.
  - apply (create_podcast_requires_podcaster Fixture.world Fixture.payload
             Fixture.alice "p-new" 40). reflexivity.
Defined.

(** Alice logs in at second 1000: her token expires at second 2800. *)
Lemma default_lifetime_is_15_minutes_witness :
  exists r w',
    login {| UserLogin.email := "alice@example.com";
             UserLogin.password := "correct horse" |} 1000 Fixture.world
    = (Ok r, w') /\
    exists sub,
      access_token r
      = jwt_encode (<["exp" := VInt 2800]> {["sub" := sub]})
                   SECRET_KEY ALGORITHM.
Proof.
  eexists _, _. split; [reflexivity|].
  apply (default_lifetime_is_15_minutes ∅
           {| UserLogin.email := "alice@example.com";
              UserLogin.password := "correct horse" |} 1000
           Fixture.world Fixture.world).
  reflexivity.
Defined.

(** C8 (counterexample). A token issued at second 0 without an explicit
    lifetime carries the expiry 900, not 1800, and is refused 20 minutes
    after issuance. *)
Lemma default_lifetime_not_30_minutes :
  to_encode {["sub" := VStr "alice@example.com"]} None 0 !! "exp"
  = Some (VInt 900) /\
  VInt 900 <> VInt (0 + 30 * 60) /\
  get_current_user
    (create_access_token {["sub" := VStr "alice@example.com"]} None 0)
    1200 Fixture.world
  = (HTTPException 401 "Invalid authentication credentials", Fixture.world).
Proof. split; [|split]; [reflexivity|discriminate|reflexivity]. Qed.

(** * Further properties of the code *)

(** ** Tokens, login and the current user *)

Lemma decode_issued_before {JC : JwtCodec} {JL : JwtLaws JC}
    (data : dict) (expires_delta : option Z) (issued now : Z) :
  plain_claims data -> now < issued + lifetime expires_delta ->
  jwt_decode (create_access_token data expires_delta issued)
             SECRET_KEY [ALGORITHM] now
  = Some (to_encode data expires_delta issued).
Proof.
  intros Hplain Hnow. unfold create_access_token, ALGORITHM.
  exact (jwt_decode_valid _ _ _ _ SECRET_KEY_nonempty
           (to_encode_exp data expires_delta issued)
           (to_encode_plain _ _ _ Hplain) Hnow).
Qed.

Lemma decode_issued_after {JC : JwtCodec} {JL : JwtLaws JC}
    (data : dict) (expires_delta : option Z) (issued now : Z) :
  issued + lifetime expires_delta < now ->
  jwt_decode (create_access_token data expires_delta issued)
             SECRET_KEY [ALGORITHM] now
  = None.
Proof.
  intros Hnow. unfold create_access_token, ALGORITHM.
  exact (jwt_decode_expired _ _ _ _ SECRET_KEY_nonempty
           (to_encode_exp data expires_delta issued) Hnow).
Qed.

(** Looking up by a value of any kind: what is found is a stored user whose
    email is that value. *)
Lemma find_one_email_value {RE : RegexEngine} (coll : list User) (v : value) :
  exists r, find_one coll (Q_and [Q_eq "email" v]) = Ok r /\
    match r with
    | Some u => u ∈ coll /\ v = VStr (User.email u)
    | None => forall u, u ∈ coll -> v <> VStr (User.email u)
    end.
Proof.
  unfold find_one. simpl. eexists. split; [reflexivity|].
  destruct (List.find _ coll) as [u|] eqn:Hfind.
  - apply List.find_some in Hfind as [Hin Hu].
    rewrite andb_true_r in Hu. apply bool_decide_eq_true in Hu.
    split; [apply list_elem_of_In; exact Hin|]. symmetry. exact Hu.
  - intros u Hin Hv. rewrite find_none_iff in Hfind.
    specialize (Hfind u Hin). rewrite andb_true_r in Hfind.
    apply bool_decide_eq_false in Hfind. apply Hfind. symmetry. exact Hv.
Qed.

(** X1. Whatever the bearer token, [get_current_user] leaves the world as
    it is and either resolves a stored user whose email is the [sub] of the
    decoded payload, or fails with 401; it raises nothing else. *)
Theorem get_current_user_outcomes {RE : RegexEngine} {JC : JwtCodec}
    (credentials : token) (now : Z) (w : World) :
  (exists u payload,
     get_current_user credentials now w = (Ok u, w) /\
     u ∈ users (db w) /\
     jwt_decode credentials SECRET_KEY [ALGORITHM] now = Some payload /\
     payload !! "sub" = Some (VStr (User.email u))) \/
  get_current_user credentials now w
  = (HTTPException 401 "Invalid authentication credentials", w) \/
  get_current_user credentials now w
  = (HTTPException 401 "User not found", w).
Proof.
  unfold get_current_user.
  destruct (jwt_decode _ _ _ _) as [payload|]; [|right; left; reflexivity].
  unfold dict_get.
  destruct (payload !! "sub") as [v|] eqn:Hsub;
    [|right; left; reflexivity].
  destruct (find_one_email_value (users (db w)) v) as (r & Hr & Hspec).
  assert (Hlookup :
    (x <- db_find_one users (Q_and [Q_eq "email" v]) ;;
     match x with
     | Some u => ret u
     | None => raise 401 "User not found"
     end)%handler w
    = match r with
      | Some u => (Ok u, w)
      | None => (HTTPException 401 "User not found", w)
      end).
  { unfold bind, db_find_one. rewrite Hr. destruct r; reflexivity. }
  destruct v as [|s|z]; simpl; [right; left; reflexivity| |];
    rewrite Hlookup; (destruct r as [u|]; [|right; right; reflexivity]);
    destruct Hspec as [Hin Hv].
  - left. exists u, payload. injection Hv as ->.
    split; [reflexivity|]. split; [exact Hin|].
    split; [reflexivity|exact Hsub].
  - discriminate Hv.
Qed.

(** X2. A token issued for a subject that no stored user has as email is
    refused with 401 "User not found" while it has not expired. *)
Theorem unknown_subject_unauthorized
    {RE : RegexEngine} {JC : JwtCodec} {JL : JwtLaws JC}
    (w : World) (S : string) (data : dict) (expires_delta : option Z)
    (issued now : Z) :
  data !! "sub" = Some (VStr S) ->
  plain_claims data ->
  (forall u, u ∈ users (db w) -> User.email u <> S) ->
  now < issued + lifetime expires_delta ->
  get_current_user (create_access_token data expires_delta issued) now w
  = (HTTPException 401 "User not found", w).
Proof.
  intros Hsub Hplain Hnone Hnow. unfold get_current_user.
  rewrite (decode_issued_before _ _ _ _ Hplain Hnow).
  unfold dict_get. rewrite to_encode_other by discriminate. rewrite Hsub.
  simpl. unfold bind, db_find_one. rewrite find_one_email.
  replace (List.find _ _) with (@None User); [reflexivity|].
  symmetry. apply find_none_iff. intros u Hin.
  apply String.eqb_neq. exact (Hnone u Hin).
Qed.

Lemma unknown_subject_unauthorized_witness :
  get_current_user
    (create_access_token {["sub" := VStr "carol@example.com"]} (Some 600) 0)
    10 Fixture.world
  = (HTTPException 401 "User not found", Fixture.world).
Proof.
  apply (unknown_subject_unauthorized Fixture.world "carol@example.com"
           {["sub" := VStr "carol@example.com"]} (Some 600) 0 10);
    [apply lookup_singleton_eq | apply plain_claims_sub | | reflexivity].
  intros u Hin. simpl in Hin.
  repeat (apply elem_of_cons in Hin as [->|Hin]; [discriminate|]).
  apply elem_of_nil in Hin. contradiction.
Defined.

(** X3. Whatever the data signed, an [exp] of its own included, the token
    is refused with 401 once its lifetime has elapsed; issued with a
    negative lifetime it is refused from the instant of issuance on. *)
Theorem token_refused_after_lifetime
    {RE : RegexEngine} {JC : JwtCodec} {JL : JwtLaws JC}
    (w : World) (data : dict) (expires_delta : option Z) (delta issued now : Z) :
  (issued + lifetime expires_delta < now ->
   get_current_user (create_access_token data expires_delta issued) now w
   = (HTTPException 401 "Invalid authentication credentials", w)) /\
  (delta < 0 -> issued <= now ->
   get_current_user (create_access_token data (Some delta) issued) now w
   = (HTTPException 401 "Invalid authentication credentials", w)).
Proof.
  split.
  - intros Hnow. unfold get_current_user.
    rewrite (decode_issued_after _ _ _ _ Hnow). reflexivity.
  - intros Hneg Hnow. unfold get_current_user.
    rewrite decode_issued_after; [reflexivity|].
    rewrite lifetime_explicit by lia. lia.
Qed.

Lemma token_refused_after_lifetime_witness :
  get_current_user
    (create_access_token
       {["sub" := VStr "alice@example.com"; "exp" := VInt 99999]}
       (Some 60) 0) 61 Fixture.world
  = (HTTPException 401 "Invalid authentication credentials", Fixture.world)
  /\
  get_current_user
    (create_access_token {["sub" := VStr "alice@example.com"]} (Some (-5)) 100)
    100 Fixture.world
  = (HTTPException 401 "Invalid authentication credentials", Fixture.world).
Proof.
  split.
  - apply (token_refused_after_lifetime Fixture.world
             {["sub" := VStr "alice@example.com"; "exp" := VInt 99999]}
             (Some 60) 0 0 61). reflexivity.
  - apply (token_refused_after_lifetime Fixture.world
             {["sub" := VStr "alice@example.com"]} None (-5) 100 100);
      [reflexivity|discriminate].
Defined.

(** X4. A login succeeds only for a stored user with the email given whose
    stored hash the password verifies against; it answers with that user's
    public fields and changes nothing. *)
Theorem login_sound
    {RE : RegexEngine} {CC : CryptContext} {JC : JwtCodec}
    (user_data : UserLogin) (utcnow : Z) (w w' : World)
    (r : LoginResponse token) :
  login user_data utcnow w = (Ok r, w') ->
  w' = w /\
  exists u,
    u ∈ users (db w) /\
    User.email u = UserLogin.email user_data /\
    verify_password (UserLogin.password user_data) (User.password_hash u)
    = Some true /\
    user r = UserResponse.of_user u /\
    token_type r = "bearer".
Proof.
  unfold login, bind, db_find_one. rewrite find_one_email.
  destruct (List.find _ _) as [u|] eqn:Hfind; [|discriminate].
  destruct (verify_password _ _) as [[|]|] eqn:Hverify; try discriminate.
  intros [= <- <-]. split; [reflexivity|]. exists u.
  apply List.find_some in Hfind as [Hin He].
  apply String.eqb_eq in He. apply list_elem_of_In in Hin.
  repeat split; assumption.
Qed.

Lemma login_sound_witness :
  exists u,
    u ∈ users (db Fixture.world) /\
    User.email u = "alice@example.com" /\
    verify_password "correct horse" (User.password_hash u) = Some true.
Proof.
  assert (Hlogin :
    login {| UserLogin.email := "alice@example.com";
             UserLogin.password := "correct horse" |} 1000 Fixture.world
    = (Ok {| access_token :=
               create_access_token
                 {["sub" := VStr "alice@example.com"]} (Some 1800) 1000;
             token_type := "bearer";
             user := UserResponse.of_user Fixture.alice |}, Fixture.world))
    by reflexivity.
  destruct (login_sound _ _ _ _ _ Hlogin) as (_ & u & Hin & He & Hv & _).
  exists u. split; [exact Hin|]. split; [exact He|exact Hv].
Defined.

(** X5. The token of a successful login, sent back within 30 minutes,
    resolves to the user who logged in and [/auth/me] answers with the same
    public fields as the login did; sent back later it is refused. *)
Theorem login_then_current_user
    {RE : RegexEngine} {CC : CryptContext} {JC : JwtCodec} {JL : JwtLaws JC}
    (user_data : UserLogin) (utcnow now : Z) (w w' : World)
    (r : LoginResponse token) :
  login user_data utcnow w = (Ok r, w') ->
  (now < utcnow + 30 * 60 ->
   (exists u, get_current_user (access_token r) now w' = (Ok u, w') /\
              User.email u = UserLogin.email user_data) /\
   route_me (access_token r) now w' = (Ok (user r), w')) /\
  (utcnow + 30 * 60 < now ->
   route_me (access_token r) now w'
   = (HTTPException 401 "Invalid authentication credentials", w')).
Proof.
  unfold login, bind, db_find_one. rewrite find_one_email.
  destruct (List.find _ _) as [u|] eqn:Hfind; [|discriminate].
  destruct (verify_password _ _) as [[|]|]; try discriminate.
  intros [= <- <-]. cbn [access_token user].
  pose proof Hfind as Hu. apply List.find_some in Hu as [_ He].
  apply String.eqb_eq in He.
  split; intros Hnow;
    change (30 * 60)
      with (lifetime (Some (minutes ACCESS_TOKEN_EXPIRE_MINUTES))) in Hnow.
  - assert (Hget : get_current_user
             (create_access_token {["sub" := VStr (User.email u)]}
                (Some (minutes ACCESS_TOKEN_EXPIRE_MINUTES)) utcnow) now w
             = (Ok u, w)).
    { unfold get_current_user.
      rewrite (decode_issued_before _ _ _ _ (plain_claims_sub _) Hnow).
      unfold dict_get. rewrite to_encode_other by discriminate.
      rewrite lookup_singleton_eq. simpl. unfold bind, db_find_one.
      rewrite find_one_email, He, Hfind. reflexivity. }
    split; [exists u; split; assumption|].
    unfold route_me, Depends, bind. rewrite Hget. reflexivity.
  - unfold route_me, Depends, bind, get_current_user.
    rewrite (decode_issued_after _ _ _ _ Hnow). reflexivity.
Qed.

Lemma login_then_current_user_witness :
  let r :=
    {| access_token :=
         create_access_token {["sub" := VStr "bob@example.com"]}
                             (Some 1800) 1000;
       token_type := "bearer";
       user := UserResponse.of_user Fixture.bob |} in
  route_me (access_token r) 2799 Fixture.world
  = (Ok (UserResponse.of_user Fixture.bob), Fixture.world) /\
  route_me (access_token r) 2801 Fixture.world
  = (HTTPException 401 "Invalid authentication credentials", Fixture.world).
Proof.
  intros r.
  assert (Hlogin :
    login {| UserLogin.email := "bob@example.com";
             UserLogin.password := "battery staple" |} 1000 Fixture.world
    = (Ok r, Fixture.world)) by reflexivity.
  split.
  - apply (login_then_current_user _ 1000 2799 _ _ _ Hlogin). reflexivity.
  - apply (login_then_current_user _ 1000 2801 _ _ _ Hlogin). reflexivity.
Defined.

(** ** Registration *)

Lemma not_found_not_in (coll : list User) (e : string) :
  List.find (fun v => String.eqb (User.email v) e) coll = None ->
  ~ In e (map User.email coll).
Proof.
  intros Hfind Hin. apply in_map_iff in Hin as (u & He & Hu).
  apply List.find_none with (x := u) in Hfind; [|exact Hu].
  rewrite He, String.eqb_refl in Hfind. discriminate.
Qed.

(** X6. Whatever its outcome, [register] keeps the emails of the store
    unique and only ever appends to the store. *)
Theorem register_keeps_emails_unique
    {RE : RegexEngine} {CC : CryptContext}
    (user_data : UserCreate) (salt uuid4 : string) (utcnow : Z)
    (w w' : World) (r : result UserResponse) :
  emails_unique w ->
  register user_data salt uuid4 utcnow w = (r, w') ->
  emails_unique w' /\ grows w w'.
Proof.
  intros Huniq. unfold register, bind, db_find_one. rewrite find_one_email.
  destruct (List.find _ _) as [existing|] eqn:Hfind; intros [= <- <-].
  - split; [exact Huniq|]. repeat split; reflexivity.
  - split.
    + unfold emails_unique in *. simpl. unfold insert_one.
      rewrite map_app. apply NoDup_app. split; [exact Huniq|]. split.
      * intros e Hin Hnew. simpl in Hnew.
        apply list_elem_of_singleton in Hnew as ->.
        apply list_elem_of_In in Hin.
        exact (not_found_not_in _ _ Hfind Hin).
      * apply NoDup_singleton.
    + split; [eexists; reflexivity|]. repeat split; reflexivity.
Qed.

Lemma register_keeps_emails_unique_witness :
  let w' :=
    snd (register {| UserCreate.email := "carol@example.com";
                     UserCreate.username := "carol";
                     UserCreate.password := "pw";
                     UserCreate.role := "podcaster" |} "s" "u-carol" 50
                  Fixture.world) in
  emails_unique w' /\ grows Fixture.world w'.
Proof.
  intros w'. subst w'.
  destruct (register _ "s" "u-carol" 50 Fixture.world) as [r w'] eqn:Hreg.
  apply (register_keeps_emails_unique _ _ _ _ _ _ _) with (2 := Hreg).
  unfold emails_unique. simpl.
  repeat (apply NoDup_cons; split;
          [intros Hin; repeat (apply elem_of_cons in Hin as [Hin|Hin];
                                 [discriminate Hin|]);
           apply elem_of_nil in Hin; exact Hin|]).
  apply NoDup_nil. exact I.
Defined.



(** X8. Whoever registered can log in: after a successful [register], a
    login with the same email and password succeeds and answers with the
    user the registration answered with. *)
Theorem registered_user_can_login
    {RE : RegexEngine} {JC : JwtCodec}
    {CC : CryptContext} {CL : CryptLaws CC}
    (w w1 : World) (user_data : UserCreate) (salt uuid4 : string)
    (t1 t2 : Z) (r : UserResponse) :
  register user_data salt uuid4 t1 w = (Ok r, w1) ->
  exists l,
    login {| UserLogin.email := UserCreate.email user_data;
             UserLogin.password := UserCreate.password user_data |} t2 w1
    = (Ok l, w1) /\
    user l = r /\
    UserResponse.email r = UserCreate.email user_data /\
    UserResponse.role r = UserCreate.role user_data.
Proof.
  intros Hreg.
  destruct (register_then_login w user_data salt uuid4 t1 t2 r w1 Hreg)
    as (l & Hlogin & Huser).
  exists l. split; [exact Hlogin|]. split; [exact Huser|].
  revert Hreg. unfold register, bind, db_find_one. rewrite find_one_email.
  destruct (List.find _ _); [discriminate|].
  intros [= <- _]. split; reflexivity.
Qed.

Lemma registered_user_can_login_witness :
  exists l w1,
    login {| UserLogin.email := "carol@example.com";
             UserLogin.password := "pw" |} 70 w1 = (Ok l, w1) /\
    UserResponse.email (user l) = "carol@example.com".
Proof.
  assert (Hreg :
    register {| UserCreate.email := "carol@example.com";
                UserCreate.username := "carol";
                UserCreate.password := "pw";
                UserCreate.role := "podcaster" |} "s" "u-carol" 50
             Fixture.world
    = (Ok {| UserResponse.id := "u-carol";
             UserResponse.email := "carol@example.com";
             UserResponse.username := "carol";
             UserResponse.role := "podcaster";
             UserResponse.created_at := 50 |},
       insert_user
         {| User.id := "u-carol";
            User.email := "carol@example.com";
            User.username := "carol";
            User.password_hash := pwd_hash "s" "pw";
            User.role := "podcaster";
            User.created_at := 50 |} Fixture.world)) by reflexivity.
  destruct (registered_user_can_login _ _ _ _ _ 50 70 _ Hreg)
    as (l & Hlogin & Huser & He & _).
  exists l. eexists. split; [exact Hlogin|]. rewrite Huser. exact He.
Defined.

(** ** Listing and fetching shows and episodes *)

Lemma filter_sublist {A} (f : A -> bool) (l : list A) :
  List.filter f l `sublist_of` l.
Proof.
  induction l as [|x l IH]; simpl; [constructor|].
  destruct (f x); [apply sublist_skip|apply sublist_cons]; exact IH.
Qed.

Lemma elem_of_filter_bool {A} (f : A -> bool) (l : list A) (x : A) :
  x ∈ List.filter f l <-> x ∈ l /\ f x = true.
Proof. rewrite !list_elem_of_In. apply List.filter_In. Qed.

Lemma filter_length_le {A} (f : A -> bool) (l : list A) :
  (length (List.filter f l) <= length l)%nat.
Proof. apply sublist_length, filter_sublist. Qed.

Section ListingQueries.

Context {RE : RegexEngine}.

Lemma find_to_list_all {D} `{Document D} (coll : list D) (n : nat) :
  find_to_list coll (Q_and []) n = Ok (take n coll).
Proof.
  unfold find_to_list. simpl. rewrite filter_all; reflexivity.
Qed.

Lemma find_to_list_creator (coll : list Podcast) (uid : string) (n : nat) :
  find_to_list coll (Q_and [Q_eq "creator_id" (VStr uid)]) n
  = Ok (take n (List.filter
                  (fun p => String.eqb (Podcast.creator_id p) uid) coll)).
Proof.
  unfold find_to_list. simpl. do 2 f_equal. apply List.filter_ext.
  intros p. rewrite andb_true_r. apply value_str_eqb.
Qed.

Lemma find_to_list_podcast_id (coll : list Episode) (pid : string) (n : nat) :
  find_to_list coll (Q_and [Q_eq "podcast_id" (VStr pid)]) n
  = Ok (take n (List.filter
                  (fun e => String.eqb (Episode.podcast_id e) pid) coll)).
Proof.
  unfold find_to_list. simpl. do 2 f_equal. apply List.filter_ext.
  intros e. rewrite andb_true_r. apply value_str_eqb.
Qed.

Lemma find_one_podcast (coll : list Podcast) (pid : string) :
  find_one coll (Q_and [Q_eq "id" (VStr pid)])
  = Ok (List.find (fun p => String.eqb (Podcast.id p) pid) coll).
Proof.
  unfold find_one. simpl. f_equal. apply find_ext. intros p.
  rewrite andb_true_r. apply value_str_eqb.
Qed.

Lemma find_one_episode (coll : list Episode) (eid : string) :
  find_one coll (Q_and [Q_eq "id" (VStr eid)])
  = Ok (List.find (fun e => String.eqb (Episode.id e) eid) coll).
Proof.
  unfold find_one. simpl. f_equal. apply find_ext. intros e.
  rewrite andb_true_r. apply value_str_eqb.
Qed.

End ListingQueries.

(** X9. [get_my_podcasts] refuses a user who is not a podcaster with 403;
    to a podcaster it returns stored shows of their own only, at most 1000
    of them, in store order, and all of their shows when the store holds
    no more than 1000 shows. *)
Theorem get_my_podcasts_owned {RE : RegexEngine}
    (current_user : User) (w : World) :
  (User.role current_user <> "podcaster" ->
   get_my_podcasts current_user w
   = (HTTPException 403 "Only podcasters can view their podcasts", w)) /\
  (User.role current_user = "podcaster" ->
   exists l,
     get_my_podcasts current_user w = (Ok l, w) /\
     l `sublist_of` podcasts (db w) /\
     (length l <= 1000)%nat /\
     (forall p, p ∈ l -> Podcast.creator_id p = User.id current_user) /\
     ((length (podcasts (db w)) <= 1000)%nat ->
      forall p, p ∈ podcasts (db w) ->
                Podcast.creator_id p = User.id current_user -> p ∈ l)).
Proof.
  unfold get_my_podcasts. split; intros Hrole.
  - apply String.eqb_neq in Hrole. rewrite Hrole. reflexivity.
  - apply String.eqb_eq in Hrole. rewrite Hrole. cbn [negb].
    unfold db_find_to_list. rewrite find_to_list_creator.
    eexists. split; [reflexivity|]. split; [|split; [|split]].
    + etransitivity; [apply sublist_take|apply filter_sublist].
    + rewrite length_take. lia.
    + intros p Hp. apply (sublist_subseteq _ _ (sublist_take _ _)) in Hp.
      apply elem_of_filter_bool in Hp as [_ Hp].
      apply String.eqb_eq. exact Hp.
    + intros Hlen p Hin Hown. rewrite take_ge.
      * apply elem_of_filter_bool. split; [exact Hin|].
        apply String.eqb_eq. exact Hown.
      * pose proof (filter_length_le
                      (fun p => String.eqb (Podcast.creator_id p)
                                           (User.id current_user))
                      (podcasts (db w))). lia.
Qed.

Lemma get_my_podcasts_owned_witness :
  get_my_podcasts Fixture.bob Fixture.world
  = (HTTPException 403 "Only podcasters can view their podcasts",
     Fixture.world) /\
  exists l,
    get_my_podcasts Fixture.alice Fixture.world = (Ok l, Fixture.world) /\
    Fixture.tech_show ∈ l /\ Fixture.music_show ∉ l.
Proof.
  split.
  - apply (get_my_podcasts_owned Fixture.bob Fixture.world). discriminate.
  - destruct (get_my_podcasts_owned Fixture.alice Fixture.world) as [_ Hok].
    destruct (Hok eq_refl) as (l & Hrun & _ & _ & Hown & Hall).
    exists l. split; [exact Hrun|]. split.
    + apply Hall; [simpl; lia| |reflexivity]. simpl. apply elem_of_cons.
      left. reflexivity.
    + intros Hin. apply Hown in Hin. discriminate Hin.
Defined.

(** What a successful [create_episode] has checked and done. *)
Lemma create_episode_ok_inv {RE : RegexEngine}
    (w w' : World) (podcast_id title description : string)
    (audio_file : UploadFile) (current_user : User)
    (uuid4_file uuid4_episode : string) (utcnow : Z) (e : Episode) :
  create_episode podcast_id title description audio_file current_user
                 uuid4_file uuid4_episode utcnow w = (Ok e, w') ->
  let key := uuid4_file +:+ "." +:+
             Str.last_item (Str.split "." (filename audio_file)) in
  User.role current_user = "podcaster" /\
  (exists p, p ∈ podcasts (db w) /\ Podcast.id p = podcast_id /\
             Podcast.creator_id p = User.id current_user) /\
  e = {| Episode.id := uuid4_episode;
         Episode.podcast_id := podcast_id;
         Episode.title := title;
         Episode.description := description;
         Episode.audio_file := key;
         Episode.duration := None;
         Episode.created_at := utcnow |} /\
  w' = insert_episode e (write_file key (content audio_file) w).
Proof.
  unfold create_episode.
  destruct (String.eqb_spec (User.role current_user) "podcaster")
    as [Hrole|Hrole]; cbn [negb]; [|discriminate].
  unfold bind, db_find_one. rewrite find_one_owned.
  destruct (List.find _ _) as [p|] eqn:Hfind; [|discriminate].
  destruct (Str.mem _ _); cbn [negb]; [|discriminate].
  simpl. intros [= <- <-]. split; [exact Hrole|]. split.
  - apply List.find_some in Hfind as [Hin Hp].
    apply andb_prop in Hp as [Hid Hcr].
    apply String.eqb_eq in Hid, Hcr. apply list_elem_of_In in Hin.
    exists p. auto.
  - split; reflexivity.
Qed.

(** X10. A show a podcaster creates is listed from then on, by
    [get_podcasts] and among the podcaster's own shows, as long as the
    store held fewer than 1000 shows; it is never among the shows
    [get_my_podcasts] returns to a user with another id. *)
Theorem created_show_is_listed {RE : RegexEngine}
    (w : World) (podcast_data : PodcastCreate) (current_user : User)
    (uuid4 : string) (utcnow : Z) :
  User.role current_user = "podcaster" ->
  (length (podcasts (db w)) < 1000)%nat ->
  exists p w',
    create_podcast podcast_data current_user uuid4 utcnow w = (Ok p, w') /\
    (exists l, get_podcasts w' = (Ok l, w') /\ p ∈ l) /\
    (exists l, get_my_podcasts current_user w' = (Ok l, w') /\ p ∈ l) /\
    (forall other l w'',
       User.id other <> User.id current_user ->
       get_my_podcasts other w' = (Ok l, w'') -> p ∉ l).
Proof.
  intros Hrole Hlen. apply String.eqb_eq in Hrole.
  unfold create_podcast. rewrite Hrole. cbn [negb].
  eexists _, _. split; [reflexivity|].
  set (p := {| Podcast.id := uuid4 |}).
  assert (Hpods : podcasts (db (insert_podcast p w)) = podcasts (db w) ++ [p])
    by reflexivity.
  split; [|split].
  - unfold get_podcasts, db_find_to_list. rewrite find_to_list_all.
    eexists. split; [reflexivity|]. rewrite Hpods.
    rewrite take_ge by (rewrite length_app; simpl; lia).
    apply elem_of_app. right. apply list_elem_of_singleton. reflexivity.
  - unfold get_my_podcasts. rewrite Hrole. cbn [negb].
    unfold db_find_to_list. rewrite find_to_list_creator.
    eexists. split; [reflexivity|]. rewrite Hpods.
    rewrite take_ge.
    + apply elem_of_filter_bool. split.
      * apply elem_of_app. right. apply list_elem_of_singleton. reflexivity.
      * apply String.eqb_refl.
    + etransitivity; [apply filter_length_le|].
      rewrite length_app. simpl. lia.
  - intros other l w'' Hother. unfold get_my_podcasts.
    destruct (negb _); [discriminate|].
    unfold db_find_to_list. rewrite find_to_list_creator.
    intros [= <- _] Hin.
    apply (sublist_subseteq _ _ (sublist_take _ _)) in Hin.
    apply elem_of_filter_bool in Hin as [_ Hcr].
    apply String.eqb_eq in Hcr. apply Hother. symmetry. exact Hcr.
Qed.

Lemma created_show_is_listed_witness :
  exists p w',
    create_podcast Fixture.payload Fixture.alice "p-new" 40 Fixture.world
    = (Ok p, w') /\
    (exists l, get_my_podcasts Fixture.alice w' = (Ok l, w') /\ p ∈ l).
Proof.
  destruct (created_show_is_listed Fixture.world Fixture.payload
              Fixture.alice "p-new" 40 eq_refl)
    as (p & w' & Hrun & _ & Hmine & _); [simpl; lia|].
  exists p, w'. split; [exact Hrun|exact Hmine].
Defined.

(** X11. An identifier no stored show has gives 404 in [get_podcast]; once
    a show is created under it, [get_podcast] returns that show. *)
Theorem created_show_fetched_by_id {RE : RegexEngine}
    (w : World) (podcast_data : PodcastCreate) (current_user : User)
    (uuid4 : string) (utcnow : Z) :
  User.role current_user = "podcaster" ->
  (forall p, p ∈ podcasts (db w) -> Podcast.id p <> uuid4) ->
  get_podcast uuid4 w = (HTTPException 404 "Podcast not found", w) /\
  exists p w',
    create_podcast podcast_data current_user uuid4 utcnow w = (Ok p, w') /\
    get_podcast uuid4 w' = (Ok p, w') /\
    Podcast.title p = PodcastCreate.title podcast_data /\
    Podcast.creator_id p = User.id current_user.
Proof.
  intros Hrole Hfresh. apply String.eqb_eq in Hrole.
  assert (Hfind : List.find (fun p => String.eqb (Podcast.id p) uuid4)
                            (podcasts (db w)) = None).
  { apply find_none_iff. intros p Hin. apply String.eqb_neq.
    exact (Hfresh p Hin). }
  split.
  - unfold get_podcast, bind, db_find_one.
    rewrite find_one_podcast, Hfind. reflexivity.
  - unfold create_podcast. rewrite Hrole. cbn [negb].
    eexists _, _. split; [reflexivity|]. split; [|split; reflexivity].
    unfold get_podcast, bind, db_find_one. rewrite find_one_podcast.
    simpl. unfold insert_one.
    rewrite (find_appended _ _ _ Hfind) by apply String.eqb_refl.
    reflexivity.
Qed.

Lemma created_show_fetched_by_id_witness :
  get_podcast "p-new" Fixture.world
  = (HTTPException 404 "Podcast not found", Fixture.world) /\
  exists p w',
    create_podcast Fixture.payload Fixture.alice "p-new" 40 Fixture.world
    = (Ok p, w') /\
    get_podcast "p-new" w' = (Ok p, w').
Proof.
  destruct (created_show_fetched_by_id Fixture.world Fixture.payload
              Fixture.alice "p-new" 40 eq_refl)
    as (H404 & p & w' & Hrun & Hget & _).
  - intros p Hin. simpl in Hin.
    repeat (apply elem_of_cons in Hin as [->|Hin]; [discriminate|]).
    apply elem_of_nil in Hin. contradiction.
  - split; [exact H404|]. exists p, w'. split; [exact Hrun|exact Hget].
Defined.

(** X12. An episode [create_episode] has stored is returned from then on:
    [get_episodes] of its show lists it after the earlier episodes of that
    show (it alone when there were none, the first 1000 at most), and
    [get_episode] finds it under its identifier when no earlier episode
    had that identifier. *)
Theorem created_episode_is_listed {RE : RegexEngine}
    (w w' : World) (podcast_id title description : string)
    (audio_file : UploadFile) (current_user : User)
    (uuid4_file uuid4_episode : string) (utcnow : Z) (e : Episode) :
  create_episode podcast_id title description audio_file current_user
                 uuid4_file uuid4_episode utcnow w = (Ok e, w') ->
  Episode.title e = title /\
  get_episodes podcast_id w'
  = (Ok (take 1000
           (List.filter
              (fun x => String.eqb (Episode.podcast_id x) podcast_id)
              (episodes (db w)) ++ [e])), w') /\
  ((forall x, x ∈ episodes (db w) -> Episode.podcast_id x <> podcast_id) ->
   get_episodes podcast_id w' = (Ok [e], w')) /\
  ((forall x, x ∈ episodes (db w) -> Episode.id x <> uuid4_episode) ->
   get_episode uuid4_episode w' = (Ok e, w')).
Proof.
  intros Hrun. apply create_episode_ok_inv in Hrun as (_ & _ & He & Hw').
  assert (Heps : episodes (db w') = episodes (db w) ++ [e])
    by (rewrite Hw'; reflexivity).
  assert (Hpid : Episode.podcast_id e = podcast_id)
    by (rewrite He; reflexivity).
  assert (Hid : Episode.id e = uuid4_episode) by (rewrite He; reflexivity).
  assert (Htitle : Episode.title e = title) by (rewrite He; reflexivity).
  clear He Hw'.
  assert (Hlist : get_episodes podcast_id w'
    = (Ok (take 1000
             (List.filter
                (fun x => String.eqb (Episode.podcast_id x) podcast_id)
                (episodes (db w)) ++ [e])), w')).
  { unfold get_episodes, db_find_to_list.
    rewrite find_to_list_podcast_id, Heps, List.filter_app.
    simpl. rewrite Hpid, String.eqb_refl. reflexivity. }
  split; [exact Htitle|]. split; [exact Hlist|]. split.
  - intros Hnone. rewrite Hlist.
    replace (List.filter _ (episodes (db w))) with (@nil Episode);
      [reflexivity|].
    symmetry. apply elem_of_nil_inv. intros x Hx.
    apply elem_of_filter_bool in Hx as [Hin Hx].
    apply String.eqb_eq in Hx. exact (Hnone x Hin Hx).
  - intros Hfresh. unfold get_episode, bind, db_find_one.
    rewrite find_one_episode, Heps.
    rewrite (find_appended _ (episodes (db w)) e).
    + reflexivity.
    + apply find_none_iff. intros x Hin. apply String.eqb_neq.
      exact (Hfresh x Hin).
    + rewrite Hid. apply String.eqb_refl.
Qed.

Lemma created_episode_is_listed_witness :
  let e := {| Episode.id := "e-1";
              Episode.podcast_id := "p-tech";
              Episode.title := "E1";
              Episode.description := "First";
              Episode.audio_file := "3f2a.wav";
              Episode.duration := None;
              Episode.created_at := 30 |} in
  let w' := insert_episode e
              (write_file "3f2a.wav" (content (Fixture.upload "e1.wav"))
                          Fixture.world) in
  get_episodes "p-tech" w' = (Ok [e], w') /\
  get_episode "e-1" w' = (Ok e, w').
Proof.
  intros e w'.
  assert (Hrun :
    create_episode "p-tech" "E1" "First" (Fixture.upload "e1.wav")
                   Fixture.alice "3f2a" "e-1" 30 Fixture.world = (Ok e, w'))
    by reflexivity.
  destruct (created_episode_is_listed _ _ _ _ _ _ _ _ _ _ _ Hrun)
    as (_ & _ & Hone & Hget).
  split; [apply Hone|apply Hget]; intros x Hin; simpl in Hin;
    apply elem_of_nil in Hin; contradiction.
Defined.

(** ** The routes behind the bearer token *)

(** What [get_current_user] can answer, whatever the token. *)
Lemma get_current_user_inv {RE : RegexEngine} {JC : JwtCodec}
    (credentials : token) (now : Z) (w w1 : World) (r : result User) :
  get_current_user credentials now w = (r, w1) ->
  w1 = w /\
  match r with
  | Ok u => u ∈ users (db w)
  | HTTPException c _ => c = 401
  | Raised _ => False
  end.
Proof.
  unfold get_current_user.
  destruct (jwt_decode _ _ _ _) as [payload|];
    [|intros [= <- <-]; split; reflexivity].
  destruct (dict_get payload "sub") as [|s|z] eqn:Hsub;
    [intros [= <- <-]; split; reflexivity| |];
    unfold bind, db_find_one;
    match goal with
    | |- context [find_one ?c (Q_and [Q_eq "email" ?v])] =>
        destruct (find_one_email_value c v) as (x & -> & Hspec)
    end;
    (destruct x as [u|]; intros [= <- <-]; split; try reflexivity);
    destruct Hspec as [Hin _]; exact Hin.
Qed.

(** The token of a login resolves, within its 30 minutes, to a stored user
    with the public fields the login answered with. *)
Lemma login_token_resolves
    {RE : RegexEngine} {CC : CryptContext} {JC : JwtCodec} {JL : JwtLaws JC}
    (user_data : UserLogin) (utcnow now : Z) (w w' : World)
    (r : LoginResponse token) :
  login user_data utcnow w = (Ok r, w') ->
  now < utcnow + 30 * 60 ->
  w' = w /\
  exists u, get_current_user (access_token r) now w = (Ok u, w) /\
            user r = UserResponse.of_user u /\
            List.find (fun v => String.eqb (User.email v)
                                           (UserLogin.email user_data))
                      (users (db w)) = Some u.
Proof.
  unfold login, bind, db_find_one. rewrite find_one_email.
  destruct (List.find _ _) as [u|] eqn:Hfind; [|discriminate].
  destruct (verify_password _ _) as [[|]|]; try discriminate.
  intros [= <- <-] Hnow. cbn [access_token user].
  change (30 * 60)
    with (lifetime (Some (minutes ACCESS_TOKEN_EXPIRE_MINUTES))) in Hnow.
  split; [reflexivity|]. exists u. split; [|split; reflexivity].
  pose proof Hfind as Hu. apply List.find_some in Hu as [_ He].
  apply String.eqb_eq in He.
  unfold get_current_user.
  rewrite (decode_issued_before _ _ _ _ (plain_claims_sub _) Hnow).
  unfold dict_get. rewrite to_encode_other by discriminate.
  rewrite lookup_singleton_eq. simpl. unfold bind, db_find_one.
  rewrite find_one_email, He, Hfind. reflexivity.
Qed.

(** X13. A bearer token that does not decode (bad signature, malformed,
    expired) gets 401 from every route that depends on the current user,
    and nothing is stored or written. *)
Theorem routes_need_valid_token {RE : RegexEngine} {JC : JwtCodec}
    (credentials : token) (now : Z) (w : World)
    (podcast_data : PodcastCreate) (podcast_id title description : string)
    (audio_file : UploadFile) (uuid4 uuid4_file uuid4_episode : string)
    (utcnow : Z) :
  jwt_decode credentials SECRET_KEY [ALGORITHM] now = None ->
  let unauthorized {A} : result A * World :=
    (HTTPException 401 "Invalid authentication credentials", w) in
  route_me credentials now w = unauthorized /\
  route_create_podcast credentials now podcast_data uuid4 utcnow w
  = unauthorized /\
  route_my_podcasts credentials now w = unauthorized /\
  route_create_episode credentials now podcast_id title description
                       audio_file uuid4_file uuid4_episode utcnow w
  = unauthorized.
Proof.
  intros Hdec unauthorized.
  unfold route_me, route_create_podcast, route_my_podcasts,
    route_create_episode, Depends, bind, get_current_user.
  rewrite Hdec. repeat split; reflexivity.
Qed.

Lemma routes_need_valid_token_witness :
  route_create_podcast
    (create_access_token {["sub" := VStr "alice@example.com"]} (Some 60) 0)
    61 Fixture.payload "p-new" 61 Fixture.world
  = (HTTPException 401 "Invalid authentication credentials", Fixture.world).
Proof.
  apply (routes_need_valid_token
           (create_access_token {["sub" := VStr "alice@example.com"]}
                                (Some 60) 0)
           61 Fixture.world Fixture.payload "" "" "" (Fixture.upload "")
           "p-new" "" "" 61).
  reflexivity.
Defined.

(** X14. The role of whoever logged in decides. With the token of a login
    whose user is not a podcaster, creating a show, listing one's shows and
    uploading an episode all answer 403 and change nothing; with the token
    of a podcaster, creating a show stores it under the id of that user. *)
Theorem role_of_login_decides
    {RE : RegexEngine} {CC : CryptContext} {JC : JwtCodec} {JL : JwtLaws JC}
    (user_data : UserLogin) (utcnow now : Z) (w w' : World)
    (r : LoginResponse token)
    (podcast_data : PodcastCreate) (podcast_id title description : string)
    (audio_file : UploadFile) (uuid4 uuid4_file uuid4_episode : string)
    (t : Z) :
  login user_data utcnow w = (Ok r, w') ->
  now < utcnow + 30 * 60 ->
  (UserResponse.role (user r) <> "podcaster" ->
   route_create_podcast (access_token r) now podcast_data uuid4 t w
   = (HTTPException 403 "Only podcasters can create podcasts", w) /\
   route_my_podcasts (access_token r) now w
   = (HTTPException 403 "Only podcasters can view their podcasts", w) /\
   route_create_episode (access_token r) now podcast_id title description
                        audio_file uuid4_file uuid4_episode t w
   = (HTTPException 403 "Only podcasters can upload episodes", w)) /\
  (UserResponse.role (user r) = "podcaster" ->
   exists p w1,
     route_create_podcast (access_token r) now podcast_data uuid4 t w
     = (Ok p, w1) /\
     Podcast.creator_id p = UserResponse.id (user r) /\
     podcasts (db w1) = podcasts (db w) ++ [p]).
Proof.
  intros Hlogin Hnow.
  destruct (login_token_resolves _ _ _ _ _ _ Hlogin Hnow)
    as (_ & u & Hget & Huser & _).
  rewrite Huser. cbn [UserResponse.of_user UserResponse.role UserResponse.id].
  unfold route_create_podcast, route_my_podcasts, route_create_episode,
    Depends, bind. rewrite Hget.
  unfold create_podcast, get_my_podcasts, create_episode.
  split; intros Hrole.
  - apply String.eqb_neq in Hrole. rewrite Hrole.
    repeat split; reflexivity.
  - apply String.eqb_eq in Hrole. rewrite Hrole. cbn [negb].
    eexists _, _. split; [reflexivity|]. split; reflexivity.
Qed.

Lemma role_of_login_decides_witness :
  let r :=
    {| access_token :=
         create_access_token {["sub" := VStr "bob@example.com"]}
                             (Some 1800) 1000;
       token_type := "bearer";
       user := UserResponse.of_user Fixture.bob |} in
  route_create_podcast (access_token r) 1500 Fixture.payload "p-new" 1500
                       Fixture.world
  = (HTTPException 403 "Only podcasters can create podcasts", Fixture.world).
Proof.
  intros r.
  assert (Hlogin :
    login {| UserLogin.email := "bob@example.com";
             UserLogin.password := "battery staple" |} 1000 Fixture.world
    = (Ok r, Fixture.world)) by reflexivity.
  destruct (role_of_login_decides _ 1000 1500 _ _ _ Fixture.payload
              "" "" "" (Fixture.upload "") "p-new" "" "" 1500 Hlogin)
    as [Hlistener _]; [reflexivity|].
  apply Hlistener. discriminate.
Defined.

(** ** What the handlers keep *)

(** X15. References stay valid. If every show has a stored creator and
    every episode a stored show, that is still so after [register], after
    creating a show through its route and after uploading an episode
    through its route, whatever the token and whatever the outcome. *)
Theorem store_stays_consistent
    {RE : RegexEngine} {CC : CryptContext} {JC : JwtCodec}
    (w : World) :
  shows_have_creators w -> episodes_have_shows w ->
  (forall user_data salt uuid4 utcnow r w',
     register user_data salt uuid4 utcnow w = (r, w') ->
     shows_have_creators w' /\ episodes_have_shows w') /\
  (forall credentials now podcast_data uuid4 utcnow r w',
     route_create_podcast credentials now podcast_data uuid4 utcnow w
     = (r, w') ->
     shows_have_creators w' /\ episodes_have_shows w') /\
  (forall credentials now podcast_id title description audio_file
          uuid4_file uuid4_episode utcnow r w',
     route_create_episode credentials now podcast_id title description
                          audio_file uuid4_file uuid4_episode utcnow w
     = (r, w') ->
     shows_have_creators w' /\ episodes_have_shows w').
Proof.
  intros Hshows Heps. split; [|split].
  - intros user_data salt uuid4 utcnow r w'.
    unfold register, bind, db_find_one. rewrite find_one_email.
    destruct (List.find _ _); intros [= <- <-]; [split; assumption|].
    split; [|exact Heps].
    intros p Hp. destruct (Hshows p Hp) as (u & Hu & Hid).
    exists u. split; [|exact Hid]. simpl. unfold insert_one.
    apply elem_of_app. left. exact Hu.
  - intros credentials now podcast_data uuid4 utcnow r w'.
    unfold route_create_podcast, Depends, bind.
    destruct (get_current_user credentials now w) as [ru w1] eqn:Hget.
    apply get_current_user_inv in Hget as [-> Hu].
    destruct ru as [u|c d|e]; [|intros [= <- <-]; split; assumption..].
    unfold create_podcast.
    destruct (negb _); intros [= <- <-]; [split; assumption|].
    split.
    + intros p Hp. simpl in Hp. unfold insert_one in Hp.
      apply elem_of_app in Hp as [Hp|Hp]; [exact (Hshows p Hp)|].
      apply list_elem_of_singleton in Hp as ->. exists u. split; [exact Hu|].
      reflexivity.
    + intros e He. destruct (Heps e He) as (p & Hp & Hid).
      exists p. split; [|exact Hid]. simpl. unfold insert_one.
      apply elem_of_app. left. exact Hp.
  - intros credentials now podcast_id title description audio_file
           uuid4_file uuid4_episode utcnow r w'.
    unfold route_create_episode, Depends, bind.
    destruct (get_current_user credentials now w) as [ru w1] eqn:Hget.
    apply get_current_user_inv in Hget as [-> Hu].
    destruct ru as [u|c d|e]; [|intros [= <- <-]; split; assumption..].
    destruct r as [e|c d|x].
    + intros Hrun.
      apply create_episode_ok_inv in Hrun as (_ & Hown & He & ->).
      split; [exact Hshows|].
      intros x Hx. simpl in Hx. unfold insert_one in Hx.
      apply elem_of_app in Hx as [Hx|Hx]; [exact (Heps x Hx)|].
      apply list_elem_of_singleton in Hx as ->.
      destruct Hown as (p & Hp & Hid & _). exists p.
      split; [exact Hp|]. rewrite He. exact Hid.
    + unfold create_episode. destruct (negb _); [intros [= _ _ <-]; auto|].
      unfold bind, db_find_one. rewrite find_one_owned.
      destruct (List.find _ _); [|intros [= _ _ <-]; auto].
      destruct (negb _); [intros [= _ _ <-]; auto|]. discriminate.
    + unfold create_episode. destruct (negb _); [discriminate|].
      unfold bind, db_find_one. rewrite find_one_owned.
      destruct (List.find _ _); [|discriminate].
      destruct (negb _); discriminate.
Qed.

Lemma store_stays_consistent_witness :
  let w :=
    {| db := {| users := [Fixture.alice];
                podcasts := [Fixture.tech_show];
                episodes := [] |};
       UPLOAD_DIR := ∅ |} in
  let w' :=
    snd (route_create_podcast
           (create_access_token {["sub" := VStr "alice@example.com"]}
                                (Some 1800) 1000)
           1500 Fixture.payload "p-new" 1500 w) in
  (shows_have_creators w' /\ episodes_have_shows w') /\
  length (podcasts (db w')) = 2%nat.
Proof.
  intros w w'. split; [|reflexivity]. subst w'.
  destruct (route_create_podcast _ 1500 Fixture.payload "p-new" 1500 w)
    as [r w'] eqn:Hrun.
  assert (Hshows : shows_have_creators w).
  { intros p Hp. simpl in Hp. apply list_elem_of_singleton in Hp as ->.
    exists Fixture.alice. split; [|reflexivity].
    apply list_elem_of_singleton. reflexivity. }
  assert (Heps : episodes_have_shows w).
  { intros e He. simpl in He. apply elem_of_nil in He. contradiction. }
  destruct (store_stays_consistent w Hshows Heps) as (_ & Hroute & _).
  exact (Hroute _ _ _ _ _ _ _ Hrun).
Defined.

Lemma grows_refl (w : World) : grows w w.
Proof. repeat split; reflexivity. Qed.

(** X16. Creating a show or an episode only ever adds: whatever the
    outcome, the users, shows and episodes stored before are still there,
    in place, and no file of the upload directory has gone; a call that
    fails leaves the world exactly as it was. *)
Theorem content_only_appended {RE : RegexEngine} (w : World) :
  (forall podcast_data current_user uuid4 utcnow r w',
     create_podcast podcast_data current_user uuid4 utcnow w = (r, w') ->
     grows w w' /\ (status_is_error r -> w' = w)) /\
  (forall podcast_id title description audio_file current_user
          uuid4_file uuid4_episode utcnow r w',
     create_episode podcast_id title description audio_file current_user
                    uuid4_file uuid4_episode utcnow w = (r, w') ->
     grows w w' /\ (status_is_error r -> w' = w)).
Proof.
  split.
  - intros podcast_data current_user uuid4 utcnow r w'.
    unfold create_podcast.
    destruct (negb _); intros [= <- <-].
    + split; [apply grows_refl|reflexivity].
    + split; [|intros []].
      split; [reflexivity|]. split; [eexists; reflexivity|].
      split; reflexivity.
  - intros podcast_id title description audio_file current_user
           uuid4_file uuid4_episode utcnow r w'.
    destruct r as [e|c d|x].
    + intros Hrun. apply create_episode_ok_inv in Hrun as (_ & _ & _ & ->).
      split; [|intros []].
      split; [reflexivity|]. split; [reflexivity|].
      split; [eexists; reflexivity|].
      simpl. rewrite dom_insert. apply union_subseteq_r.
    + unfold create_episode. destruct (negb _);
        [intros [= _ _ <-]; split; [apply grows_refl|reflexivity]|].
      unfold bind, db_find_one. rewrite find_one_owned.
      destruct (List.find _ _);
        [|intros [= _ _ <-]; split; [apply grows_refl|reflexivity]].
      destruct (negb _);
        [intros [= _ _ <-]; split; [apply grows_refl|reflexivity]|].
      discriminate.
    + unfold create_episode. destruct (negb _); [discriminate|].
      unfold bind, db_find_one. rewrite find_one_owned.
      destruct (List.find _ _); [|discriminate].
      destruct (negb _); discriminate.
Qed.

(** X17. The handlers that only read ([get_podcasts], [get_my_podcasts],
    [get_podcast], [get_episodes], [get_all_episodes], [get_episode],
    [search], [login], [get_current_user]) leave the world as it was,
    whatever they are asked and whatever they answer. *)
Theorem queries_change_nothing
    {RE : RegexEngine} {CC : CryptContext} {JC : JwtCodec} (w : World) :
  snd (get_podcasts w) = w /\
  (forall current_user, snd (get_my_podcasts current_user w) = w) /\
  (forall podcast_id, snd (get_podcast podcast_id w) = w) /\
  (forall podcast_id, snd (get_episodes podcast_id w) = w) /\
  snd (get_all_episodes w) = w /\
  (forall episode_id, snd (get_episode episode_id w) = w) /\
  (forall q, snd (search q w) = w) /\
  (forall user_data utcnow, snd (login user_data utcnow w) = w) /\
  (forall credentials now, snd (get_current_user credentials now w) = w).
Proof.
  repeat split.
  - intros current_user. unfold get_my_podcasts.
    destruct (negb _); reflexivity.
  - intros podcast_id. unfold get_podcast, bind, db_find_one.
    rewrite find_one_podcast. destruct (List.find _ _); reflexivity.
  - intros episode_id. unfold get_episode, bind, db_find_one.
    rewrite find_one_episode. destruct (List.find _ _); reflexivity.
  - intros q. unfold search, bind, db_find_to_list.
    destruct (find_to_list (podcasts (db w)) _ 50); try reflexivity.
    destruct (find_to_list (episodes (db w)) _ 50); reflexivity.
  - intros user_data utcnow. unfold login, bind, db_find_one.
    rewrite find_one_email. destruct (List.find _ _); [|reflexivity].
    destruct (verify_password _ _) as [[|]|]; reflexivity.
  - intros credentials now.
    destruct (get_current_user credentials now w) as [r w1] eqn:Hget.
    apply get_current_user_inv in Hget as [-> _]. reflexivity.
Qed.

(** X18. Of the name of an uploaded file only the extension is used: two
    uploads with the same content whose names end in the same extension
    are answered alike and leave the same world. *)
Theorem upload_reads_extension_only {RE : RegexEngine}
    (w : World) (podcast_id title description : string)
    (name1 name2 : string) (data : bytes) (current_user : User)
    (uuid4_file uuid4_episode : string) (utcnow : Z) :
  Str.last_item (Str.split "." name1) = Str.last_item (Str.split "." name2) ->
  create_episode podcast_id title description
                 {| filename := name1; content := data |} current_user
                 uuid4_file uuid4_episode utcnow w
  = create_episode podcast_id title description
                   {| filename := name2; content := data |} current_user
                   uuid4_file uuid4_episode utcnow w.
Proof.
  intros Hext. unfold create_episode. cbn [filename content].
  rewrite Hext. reflexivity.
Qed.

Lemma upload_reads_extension_only_witness :
  create_episode "p-tech" "E1" "First"
                 {| filename := "../../etc/passwd.mp3";
                    content := [Byte.x00] |}
                 Fixture.alice "3f2a" "e-1" 30 Fixture.world
  = create_episode "p-tech" "E1" "First"
                   {| filename := "track.mp3"; content := [Byte.x00] |}
                   Fixture.alice "3f2a" "e-1" 30 Fixture.world.
Proof.
  apply (upload_reads_extension_only Fixture.world "p-tech" "E1" "First"
           "../../etc/passwd.mp3" "track.mp3" [Byte.x00] Fixture.alice
           "3f2a" "e-1" 30).
  reflexivity.
Defined.

(** ** Search, whatever the pattern *)

(** X19. Whatever the query, [search] either fails as a whole, when the
    query does not compile as a pattern, or returns stored shows and
    episodes only, in store order and at most 50 of each, every one of
    which the compiled pattern finds in one of the searched fields. *)
Theorem search_results_come_from_store {RE : RegexEngine}
    (q : string) (w : World) :
  match regex_compile q "i" with
  | None => search q w = (Raised "OperationFailure", w)
  | Some m =>
      exists shows eps,
        search q w = (Ok (shows, eps), w) /\
        shows `sublist_of` podcasts (db w) /\ (length shows <= 50)%nat /\
        eps `sublist_of` episodes (db w) /\ (length eps <= 50)%nat /\
        (forall p, p ∈ shows ->
           m (Podcast.title p) || m (Podcast.description p) ||
           m (Podcast.category p) = true) /\
        (forall e, e ∈ eps ->
           m (Episode.title e) || m (Episode.description e) = true)
  end.
Proof.
  unfold search, bind, db_find_to_list, find_to_list. simpl.
  destruct (regex_compile q "i") as [m|]; [|reflexivity].
  simpl. eexists _, _. split; [reflexivity|].
  split; [etransitivity; [apply sublist_take|apply filter_sublist]|].
  split; [rewrite length_take; lia|].
  split; [etransitivity; [apply sublist_take|apply filter_sublist]|].
  split; [rewrite length_take; lia|]. split.
  - intros p Hp. apply (sublist_subseteq _ _ (sublist_take _ _)) in Hp.
    apply elem_of_filter_bool in Hp as [_ Hp].
    rewrite andb_true_r, !orb_false_r in Hp. rewrite <- orb_assoc. exact Hp.
  - intros e He. apply (sublist_subseteq _ _ (sublist_take _ _)) in He.
    apply elem_of_filter_bool in He as [_ He].
    rewrite andb_true_r, !orb_false_r in He. exact He.
Qed.

Lemma istartswith_lower (q1 q2 s : string) :
  Str.lower q1 = Str.lower q2 ->
  Str.istartswith q1 s = Str.istartswith q2 s.
Proof.
  revert q2 s. induction q1 as [|a q1 IH]; intros [|b q2] s Hq;
    simpl in Hq; try discriminate; [reflexivity|].
  injection Hq as Hab Hq. destruct s as [|c s]; simpl; [reflexivity|].
  rewrite Hab, (IH q2 s Hq). reflexivity.
Qed.

Lemma icontains_lower (q1 q2 s : string) :
  Str.lower q1 = Str.lower q2 ->
  Str.icontains q1 s = Str.icontains q2 s.
Proof.
  intros Hq. induction s as [|c s IH]; simpl;
    rewrite (istartswith_lower q1 q2 _ Hq); [reflexivity|].
  rewrite IH. reflexivity.
Qed.

(** X20. The letter case of a query of ordinary characters does not
    matter: two such queries that are equal up to letter case get the same
    answer. *)
Theorem search_ignores_case_of_query
    {RE : RegexEngine} {RL : RegexLaws RE} (q1 q2 : string) (w : World) :
  literal q1 = true -> literal q2 = true ->
  Str.lower q1 = Str.lower q2 ->
  search q1 w = search q2 w.
Proof.
  intros H1 H2 Hq. rewrite !search_literal by assumption.
  do 3 f_equal; f_equal; apply List.filter_ext; intros x;
    unfold podcast_contains, episode_contains;
    rewrite !(icontains_lower q1 q2 _ Hq); reflexivity.
Qed.

Lemma search_ignores_case_of_query_witness :
  search "TECH" Fixture.world = search "tech" Fixture.world.
Proof.
  apply (search_ignores_case_of_query "TECH" "tech" Fixture.world);
    reflexivity.
Defined.

(** X21. A show is found by any run of ordinary characters of its title,
    letter case apart, in a store of at most 50 shows. *)
Theorem search_finds_show_by_title
    {RE : RegexEngine} {RL : RegexLaws RE}
    (q : string) (p : Podcast) (w : World) :
  literal q = true ->
  p ∈ podcasts (db w) ->
  (length (podcasts (db w)) <= 50)%nat ->
  Str.icontains q (Podcast.title p) = true ->
  exists shows eps, search q w = (Ok (shows, eps), w) /\ p ∈ shows.
Proof.
  intros Hq Hin Hlen Htitle. rewrite search_literal by exact Hq.
  eexists _, _. split; [reflexivity|].
  rewrite take_ge.
  - apply elem_of_filter_bool. split; [exact Hin|].
    unfold podcast_contains. rewrite Htitle. reflexivity.
  - etransitivity; [apply filter_length_le|exact Hlen].
Qed.

Lemma search_finds_show_by_title_witness :
  exists shows eps,
    search "BIT" Fixture.world = (Ok (shows, eps), Fixture.world) /\
    Fixture.tech_show ∈ shows.
Proof.
  apply (search_finds_show_by_title "BIT" Fixture.tech_show Fixture.world);
    [reflexivity| |simpl; lia|reflexivity].
  simpl. apply elem_of_cons. left. reflexivity.
Defined.

(** ** The registration view of views.py *)

Lemma find_appended_some {A} (f : A -> bool) (l : list A) (x : A) :
  f x = true -> exists y, List.find f (l ++ [x]) = Some y.
Proof.
  intros Hx. induction l as [|a l IH]; simpl.
  - rewrite Hx. eexists. reflexivity.
  - destruct (f a); [eexists; reflexivity|exact IH].
Qed.

(** X22. What the registration view refuses: a method other than POST gets
    405; a body that cannot be read as an object gets 500 with the message
    of the exception; an email or password that is missing or empty gets
    400. Any answer other than 201 leaves the collection as it was. *)
Theorem views_register_user_rejections {RE : RegexEngine}
    (request : Views.HttpRequest) (users_collection : list dict) :
  (Views.method request <> "POST" ->
   Views.register_user request users_collection
   = ({| Views.data := [("error", "Invalid request method")];
         Views.status := 405 |}, users_collection)) /\
  (Views.method request = "POST" ->
   forall message, Views.body request = Views.LoadsError message ->
   Views.register_user request users_collection
   = ({| Views.data := [("error", message)]; Views.status := 500 |},
      users_collection)) /\
  (Views.method request = "POST" ->
   forall data, Views.body request = Views.Loaded data ->
   truthy (dict_get data "email") = false \/
   truthy (dict_get data "password") = false ->
   Views.register_user request users_collection
   = ({| Views.data := [("error", "Email and password required")];
         Views.status := 400 |}, users_collection)) /\
  (forall response users_collection',
   Views.register_user request users_collection
   = (response, users_collection') ->
   Views.status response <> 201 -> users_collection' = users_collection).
Proof.
  unfold Views.register_user. split; [|split; [|split]].
  - intros Hm. apply String.eqb_neq in Hm. rewrite Hm. reflexivity.
  - intros Hm message Hb. apply String.eqb_eq in Hm. rewrite Hm, Hb.
    reflexivity.
  - intros Hm data Hb Hmissing. apply String.eqb_eq in Hm. rewrite Hm, Hb.
    destruct Hmissing as [-> | ->]; [reflexivity|].
    rewrite orb_true_r. reflexivity.
  - intros response users_collection'.
    destruct (String.eqb _ _); [|intros [= <- <-]; reflexivity].
    destruct (Views.body request) as [data|message];
      [|intros [= <- <-]; reflexivity].
    destruct (_ || _); [intros [= <- <-]; reflexivity|].
    destruct (find_one _ _) as [[doc|]| |];
      intros [= <- <-]; try reflexivity.
    intros Hs. contradiction Hs. reflexivity.
Qed.

Lemma views_register_user_rejections_witness :
  Views.register_user
    {| Views.method := "GET"; Views.body := Views.Loaded ∅ |} []
  = ({| Views.data := [("error", "Invalid request method")];
        Views.status := 405 |}, []) /\
  Views.register_user
    {| Views.method := "POST";
       Views.body := Views.Loaded {["email" := VStr "a@b.c"]} |} []
  = ({| Views.data := [("error", "Email and password required")];
        Views.status := 400 |}, []).
Proof.
  split.
  - apply (views_register_user_rejections
             {| Views.method := "GET"; Views.body := Views.Loaded ∅ |} []).
    discriminate.
  - destruct (views_register_user_rejections
                {| Views.method := "POST";
                   Views.body := Views.Loaded {["email" := VStr "a@b.c"]} |}
                []) as (_ & _ & H400 & _).
    apply (H400 eq_refl {["email" := VStr "a@b.c"]} eq_refl).
    right. reflexivity.
Defined.

(** X23. The registration view refuses an email twice: once a POST with an
    email and a password has been answered 201, any further POST with the
    same email, whatever its password, gets 409 and stores nothing. *)
Theorem views_register_user_twice {RE : RegexEngine}
    (first second : Views.HttpRequest) (data1 data2 : dict)
    (users_collection users_collection' : list dict)
    (response : Views.JsonResponse) :
  Views.register_user first users_collection
  = (response, users_collection') ->
  Views.status response = 201 ->
  Views.body first = Views.Loaded data1 ->
  Views.method second = "POST" ->
  Views.body second = Views.Loaded data2 ->
  dict_get data2 "email" = dict_get data1 "email" ->
  truthy (dict_get data2 "password") = true ->
  Views.register_user second users_collection'
  = ({| Views.data := [("error", "User already exists")];
        Views.status := 409 |}, users_collection').
Proof.
  intros Hfirst Hstatus Hb1 Hm2 Hb2 Hemail Hpw2. revert Hfirst.
  unfold Views.register_user at 1. rewrite Hb1.
  destruct (String.eqb (Views.method first) "POST");
    [|intros [= <- _]; discriminate Hstatus].
  destruct (negb (truthy (dict_get data1 "email")) || _) eqn:Htruthy;
    [intros [= <- _]; discriminate Hstatus|].
  destruct (find_one users_collection _) as [[doc|]| |];
    intros [= <- <-]; try discriminate Hstatus.
  apply orb_false_elim in Htruthy as [He1 _].
  apply negb_false_iff in He1.
  unfold Views.register_user. apply String.eqb_eq in Hm2.
  rewrite Hm2, Hb2, Hemail, He1, Hpw2. simpl.
  unfold find_one, insert_one. simpl.
  match goal with
  | |- context [List.find ?f (users_collection ++ [?d])] =>
      destruct (find_appended_some f users_collection d) as [y ->]
  end; [|reflexivity].
  rewrite andb_true_r. apply bool_decide_eq_true.
  unfold field, dict_document, dict_get. rewrite lookup_insert_eq.
  reflexivity.
Qed.

Lemma views_register_user_twice_witness :
  exists users_collection',
    fst (Views.register_user
           {| Views.method := "POST";
              Views.body :=
                Views.Loaded {["email" := VStr "a@b.c";
                               "password" := VStr "pw"]} |} [])
    = {| Views.data := [("message", "Registration successful")];
         Views.status := 201 |} /\
    Views.register_user
      {| Views.method := "POST";
         Views.body :=
           Views.Loaded {["email" := VStr "a@b.c";
                          "password" := VStr "other"]} |}
      users_collection'
    = ({| Views.data := [("error", "User already exists")];
          Views.status := 409 |}, users_collection').
Proof.
  destruct (Views.register_user
              {| Views.method := "POST";
                 Views.body :=
                   Views.Loaded {["email" := VStr "a@b.c";
                                  "password" := VStr "pw"]} |} [])
    as [response users_collection'] eqn:Hfirst.
  assert (Hresp : response
    = {| Views.data := [("message", "Registration successful")];
         Views.status := 201 |}).
  { vm_compute in Hfirst. injection Hfirst as <- _. reflexivity. }
  exists users_collection'. split; [exact Hresp|].
  apply (views_register_user_twice _ _
           {["email" := VStr "a@b.c"; "password" := VStr "pw"]}
           {["email" := VStr "a@b.c"; "password" := VStr "other"]}
           _ _ _ Hfirst);
    [rewrite Hresp; reflexivity|reflexivity..].
Defined.

(** ** More on tokens, uploads and fetching *)

(** X24. Round trip of a token: before its expiry, an issued token decodes
    under the key of the process to the claims it was issued for, with
    [exp] set to the instant of issuance plus the lifetime and every other
    claim as the caller gave it. *)
Theorem token_round_trip {JC : JwtCodec} {JL : JwtLaws JC}
    (data : dict) (expires_delta : option Z) (issued now : Z) :
  plain_claims data ->
  now < issued + lifetime expires_delta ->
  exists payload,
    jwt_decode (create_access_token data expires_delta issued)
               SECRET_KEY [ALGORITHM] now = Some payload /\
    payload !! "exp" = Some (VInt (issued + lifetime expires_delta)) /\
    forall k, k <> "exp" -> payload !! k = data !! k.
Proof.
  intros Hplain Hnow. exists (to_encode data expires_delta issued).
  split; [exact (decode_issued_before _ _ _ _ Hplain Hnow)|].
  split; [apply to_encode_exp|].
  intros k Hk. apply to_encode_other. exact Hk.
Qed.

Lemma token_round_trip_witness :
  exists payload,
    jwt_decode
      (create_access_token
         {["sub" := VStr "alice@example.com"; "scope" := VStr "read"]}
         None 100)
      SECRET_KEY [ALGORITHM] 999 = Some payload /\
    payload !! "exp" = Some (VInt 1000) /\
    payload !! "scope" = Some (VStr "read").
Proof.
  destruct (token_round_trip
              {["sub" := VStr "alice@example.com"; "scope" := VStr "read"]}
              None 100 999) as (payload & Hdec & Hexp & Hother).
  - split.
    + intros k Hk. unfold validated_claims in Hk.
      repeat (apply elem_of_cons in Hk as [->|Hk]; [reflexivity|]).
      apply elem_of_nil in Hk. contradiction.
    + right. exists "alice@example.com". reflexivity.
  - reflexivity.
  - exists payload. split; [exact Hdec|]. split; [exact Hexp|].
    rewrite Hother by discriminate. reflexivity.
Defined.

(** X25. A name without a dot is its own extension: an upload whose whole
    name is mp3, wav or ogg, letter case apart, passes the check of
    [create_episode] and is stored under the generated identifier followed
    by a dot and that name. *)
Theorem dotless_name_is_its_own_extension {RE : RegexEngine}
    (w : World) (podcast_id title description : string)
    (audio_file : UploadFile) (current_user : User) (owned : Podcast)
    (uuid4_file uuid4_episode : string) (utcnow : Z) :
  User.role current_user = "podcaster" ->
  List.find (fun p => String.eqb (Podcast.id p) podcast_id &&
                      String.eqb (Podcast.creator_id p) (User.id current_user))
            (podcasts (db w)) = Some owned ->
  Str.lacks "." (filename audio_file) = true ->
  Str.lower (filename audio_file) ∈ ["mp3"; "wav"; "ogg"] ->
  exists e w',
    create_episode podcast_id title description audio_file current_user
                   uuid4_file uuid4_episode utcnow w = (Ok e, w') /\
    Episode.audio_file e = uuid4_file +:+ "." +:+ filename audio_file.
Proof.
  intros Hrole Hfind Hdot Hext. apply String.eqb_eq in Hrole.
  assert (Hlast : Str.last_item (Str.split "." (filename audio_file))
                  = filename audio_file).
  { destruct (file_extension_spec (filename audio_file)) as [_ Hspec].
    destruct Hspec as [[Heq _]|[stem Hstem]]; [symmetry; exact Heq|].
    exfalso. rewrite Hstem in Hdot. clear -Hdot.
    induction stem as [|c stem IH]; simpl in Hdot; [discriminate|].
    apply andb_prop in Hdot as [_ Hdot]. exact (IH Hdot). }
  unfold create_episode, bind, db_find_one.
  rewrite Hrole. cbn [negb]. rewrite find_one_owned, Hfind, Hlast.
  apply mem_spec in Hext. rewrite Hext. cbn [negb].
  eexists _, _. split; reflexivity.
Qed.

Lemma dotless_name_is_its_own_extension_witness :
  exists e w',
    create_episode "p-tech" "E1" "First" (Fixture.upload "OGG")
                   Fixture.alice "3f2a" "e-1" 30 Fixture.world = (Ok e, w') /\
    Episode.audio_file e = "3f2a.OGG".
Proof.
  apply (dotless_name_is_its_own_extension Fixture.world "p-tech" "E1"
           "First" (Fixture.upload "OGG") Fixture.alice Fixture.tech_show
           "3f2a" "e-1" 30); [reflexivity..|].
  apply mem_spec. reflexivity.
Defined.

(** X26. [get_episodes] never answers 404: it returns the stored episodes
    of the show asked for and no others, in store order and at most 1000,
    hence the empty list for a show without episodes or an identifier no
    show has. *)
Theorem get_episodes_of_show {RE : RegexEngine}
    (podcast_id : string) (w : World) :
  exists l,
    get_episodes podcast_id w = (Ok l, w) /\
    l `sublist_of` episodes (db w) /\
    (length l <= 1000)%nat /\
    (forall e, e ∈ l -> Episode.podcast_id e = podcast_id) /\
    ((length (episodes (db w)) <= 1000)%nat ->
     forall e, e ∈ episodes (db w) ->
               Episode.podcast_id e = podcast_id -> e ∈ l) /\
    ((forall e, e ∈ episodes (db w) -> Episode.podcast_id e <> podcast_id) ->
     l = []).
Proof.
  unfold get_episodes, db_find_to_list. rewrite find_to_list_podcast_id.
  eexists. split; [reflexivity|].
  split; [etransitivity; [apply sublist_take|apply filter_sublist]|].
  split; [rewrite length_take; lia|]. split; [|split].
  - intros e He. apply (sublist_subseteq _ _ (sublist_take _ _)) in He.
    apply elem_of_filter_bool in He as [_ He]. apply String.eqb_eq. exact He.
  - intros Hlen e Hin Hpid. rewrite take_ge.
    + apply elem_of_filter_bool. split; [exact Hin|].
      apply String.eqb_eq. exact Hpid.
    + etransitivity; [apply filter_length_le|exact Hlen].
  - intros Hnone.
    replace (List.filter _ (episodes (db w))) with (@nil Episode);
      [reflexivity|].
    symmetry. apply elem_of_nil_inv. intros x Hx.
    apply elem_of_filter_bool in Hx as [Hin Hx].
    apply String.eqb_eq in Hx. exact (Hnone x Hin Hx).
Qed.

(** X27. Fetching by identifier: [get_podcast] and [get_episode] answer
    404 exactly when nothing stored has the identifier, and otherwise
    return something stored that has it. *)
Theorem fetch_by_id {RE : RegexEngine} (id : string) (w : World) :
  (get_podcast id w = (HTTPException 404 "Podcast not found", w) <->
   forall p, p ∈ podcasts (db w) -> Podcast.id p <> id) /\
  (forall p w', get_podcast id w = (Ok p, w') ->
                p ∈ podcasts (db w) /\ Podcast.id p = id) /\
  (get_episode id w = (HTTPException 404 "Episode not found", w) <->
   forall e, e ∈ episodes (db w) -> Episode.id e <> id) /\
  (forall e w', get_episode id w = (Ok e, w') ->
                e ∈ episodes (db w) /\ Episode.id e = id).
Proof.
  unfold get_podcast, get_episode, bind, db_find_one.
  rewrite find_one_podcast, find_one_episode.
  split; [|split; [|split]].
  - destruct (List.find _ (podcasts (db w))) as [p|] eqn:Hfind.
    + split; [discriminate|]. intros Hnone. exfalso.
      apply List.find_some in Hfind as [Hin Hp].
      apply String.eqb_eq in Hp. apply list_elem_of_In in Hin.
      exact (Hnone p Hin Hp).
    + split; [|reflexivity]. intros _ p Hin.
      rewrite find_none_iff in Hfind. apply String.eqb_neq.
      exact (Hfind p Hin).
  - intros p w'. destruct (List.find _ (podcasts (db w))) as [p0|] eqn:Hfind;
      [|discriminate].
    intros [= <- _]. apply List.find_some in Hfind as [Hin Hp].
    apply String.eqb_eq in Hp. apply list_elem_of_In in Hin. auto.
  - destruct (List.find _ (episodes (db w))) as [e|] eqn:Hfind.
    + split; [discriminate|]. intros Hnone. exfalso.
      apply List.find_some in Hfind as [Hin He].
      apply String.eqb_eq in He. apply list_elem_of_In in Hin.
      exact (Hnone e Hin He).
    + split; [|reflexivity]. intros _ e Hin.
      rewrite find_none_iff in Hfind. apply String.eqb_neq.
      exact (Hfind e Hin).
  - intros e w'. destruct (List.find _ (episodes (db w))) as [e0|] eqn:Hfind;
      [|discriminate].
    intros [= <- _]. apply List.find_some in Hfind as [Hin He].
    apply String.eqb_eq in He. apply list_elem_of_In in Hin. auto.
Qed.

(** ** From registration to a listed episode *)



